(** * Logosmith: the generation workflow of [App.tsx] and [GeminiService]

    A shallow embedding of the workflow controller of [src/App.tsx]
    ([handleOpenKeySelector], [generateLogoConcepts], [handleGenerate],
    [handleSelectLogo] and the stage buttons), of the earlier variant of the
    same component kept in [src/unnamed/part_000], and of
    [src/services/geminiService.ts] with the component of [part_000] that
    calls it.

    Every async handler runs to completion as one step of a state and
    exception monad over a [World]: the React state of the component, the
    host capability [window.aistudio], [process.env.API_KEY], the readings of
    [Date.now()], the replies the remote service will give, in request
    order, and a log of the observable effects (credential queries,
    generation requests, alerts). *)

From Stdlib Require Import String Ascii List Bool Arith Lia.
Set Warnings "-register-all".
Import ListNotations.
Open Scope string_scope.
Open Scope nat_scope.

(* ------------------------------------------------------------------ *)
(** ** Strings as JavaScript has them *)

(** [s.includes(sub)] *)
Fixpoint includes (s sub : string) : bool :=
  String.prefix sub s ||
  match s with
  | EmptyString => false
  | String _ s' => includes s' sub
  end.

(** [a || b] on strings: the empty string is falsy. *)
Definition str_or (a b : string) : string :=
  if String.eqb a "" then b else a.

(** [a || b] where [a] may be [undefined]. *)
Definition opt_str_or (a : option string) (b : string) : string :=
  match a with Some s => str_or s b | None => b end.

(** [s.split(sep)[0]]: the text before the first occurrence of [sep]. *)
Fixpoint split_first (sep : ascii) (s : string) : string :=
  match s with
  | EmptyString => EmptyString
  | String c s' => if Ascii.eqb c sep then EmptyString else String c (split_first sep s')
  end.

Definition digit_char (d : nat) : ascii := ascii_of_nat (48 + d).

(** Decimal rendering of a number, as template literals print it. *)
Fixpoint digits_aux (fuel n : nat) (acc : string) : string :=
  match fuel with
  | 0 => acc
  | S f =>
      let acc' := String (digit_char (n mod 10)) acc in
      if Nat.ltb n 10 then acc' else digits_aux f (n / 10) acc'
  end.

Definition show_nat (n : nat) : string := digits_aux (S n) n "".

Definition nl : string := String (ascii_of_nat 10) "".

(** The double quote character, and a text between double quotes. *)
Definition dq_char : ascii := ascii_of_nat 34.
Definition dq : string := String dq_char "".
Definition quoted (s : string) : string := dq ++ s ++ dq.

(* ------------------------------------------------------------------ *)
(** ** Data model: [src/types.ts] *)

Record BrandInfo := mkBrandInfo {
  businessName : string;
  industry : string;
  coreValues : string;
  targetAudience : string;
  preferredStyle : string }.

Record LogoConcept := mkLogoConcept {
  id : string;
  imageUrl : string;
  description : string;
  conceptName : string }.

Inductive AppStep := IDLE | WIZARD | GENERATING | GALLERY | STYLE_GUIDE.

Definition AppStep_eqb (a b : AppStep) : bool :=
  match a, b with
  | IDLE, IDLE | WIZARD, WIZARD | GENERATING, GENERATING
  | GALLERY, GALLERY | STYLE_GUIDE, STYLE_GUIDE => true
  | _, _ => false
  end.

(** A JSON value, the result of [JSON.parse]. Numbers keep their lexeme. *)
Inductive json :=
| JNull
| JBool (b : bool)
| JNum (lexeme : string)
| JStr (s : string)
| JArr (items : list json)
| JObj (fields : list (string * json)).

(** The [StyleGuide] state holds whatever [JSON.parse] returned; a parsed
    [null] is the state's [null]. *)
Definition StyleGuide := json.

(* ------------------------------------------------------------------ *)
(** ** The remote service *)

(** [part.inlineData]; its [data] may be absent. *)
Record Blob := mkBlob { data : option string }.
Record Part := mkPart { inlineData : option Blob; text_part : option string }.

(** A response of the image model: the candidates, each with its
    [content?.parts] when present. *)
Record ImageResponse := mkImageResponse { candidates : list (option (list Part)) }.

(** [response.candidates?.[0]?.content?.parts || []] *)
Definition first_parts (r : ImageResponse) : list Part :=
  match candidates r with
  | Some ps :: _ => ps
  | _ => []
  end.

(** A settled promise: a value, or a rejection with an [Error] whose
    [message] may be absent. *)
Inductive res (A : Type) :=
| Ok (a : A)
| Throw (message : option string).
Arguments Ok {A} a.
Arguments Throw {A} message.

(** Observable effects. *)
Inductive Event :=
| EvHasSelectedApiKey
| EvOpenSelectKey
| EvGenerate (model : string) (apiKey : option string) (prompt : string)
| EvAlert (msg : string).

Definition is_generate (e : Event) : bool :=
  match e with EvGenerate _ _ _ => true | _ => false end.

(** [window.aistudio]: the answer of [hasSelectedApiKey()] and the outcome
    of [openSelectKey()] (on success the host installs the chosen key into
    [process.env.API_KEY]). *)
Record Host := mkHost {
  has_selected : bool;
  select_key : res string }.

(** The React state of the component. *)
Record AppState := mkAppState {
  step : AppStep;
  hasKey : bool;
  errorMsg : option string;
  brandInfo : BrandInfo;
  concepts : list LogoConcept;
  selectedConcept : option LogoConcept;
  styleGuide : option StyleGuide;
  loadingMsg : string }.

Record World := mkWorld {
  st : AppState;
  aistudio : option Host;
  env_API_KEY : option string;
  clock : list nat;
  image_replies : list (res ImageResponse);
  text_replies : list (res (option string));
  log : list Event }.

(* ------------------------------------------------------------------ *)
(** ** [JSON.parse]

    A parser of the JSON grammar (RFC 8259) over the characters of the text:
    whitespace is space, tab, newline and carriage return; a string escape
    [\uXXXX] above 255 is kept as ["?"] since the strings of this model are
    8-bit. [None] is the [SyntaxError] that [JSON.parse] throws. *)

Definition is_ws (c : ascii) : bool :=
  Ascii.eqb c " "%char || Ascii.eqb c (ascii_of_nat 9) ||
  Ascii.eqb c (ascii_of_nat 10) || Ascii.eqb c (ascii_of_nat 13).

Fixpoint skip_ws (l : list ascii) : list ascii :=
  match l with
  | c :: r => if is_ws c then skip_ws r else l
  | [] => []
  end.

Definition is_digit (c : ascii) : bool :=
  (48 <=? nat_of_ascii c) && (nat_of_ascii c <=? 57).

Fixpoint take_digits (l : list ascii) : list ascii * list ascii :=
  match l with
  | c :: r => if is_digit c then let '(ds, r') := take_digits r in (c :: ds, r') else ([], l)
  | [] => ([], [])
  end.

Definition hex_val (c : ascii) : option nat :=
  let n := nat_of_ascii c in
  if (48 <=? n) && (n <=? 57) then Some (n - 48)
  else if (65 <=? n) && (n <=? 70) then Some (n - 55)
  else if (97 <=? n) && (n <=? 102) then Some (n - 87)
  else None.

Definition unicode_char (a b c d : ascii) : option ascii :=
  match hex_val a, hex_val b, hex_val c, hex_val d with
  | Some x, Some y, Some z, Some w =>
      let code := ((x * 16 + y) * 16 + z) * 16 + w in
      Some (if code <? 256 then ascii_of_nat code else "?"%char)
  | _, _, _, _ => None
  end.

Definition simple_escape (c : ascii) : option ascii :=
  if Ascii.eqb c dq_char then Some dq_char
  else if Ascii.eqb c "\"%char then Some "\"%char
  else if Ascii.eqb c "/"%char then Some "/"%char
  else if Ascii.eqb c "b"%char then Some (ascii_of_nat 8)
  else if Ascii.eqb c "f"%char then Some (ascii_of_nat 12)
  else if Ascii.eqb c "n"%char then Some (ascii_of_nat 10)
  else if Ascii.eqb c "r"%char then Some (ascii_of_nat 13)
  else if Ascii.eqb c "t"%char then Some (ascii_of_nat 9)
  else None.

(** The body of a string literal, after its opening quote. *)
Fixpoint p_string (l : list ascii) : option (list ascii * list ascii) :=
  match l with
  | [] => None
  | c :: r =>
      if Ascii.eqb c dq_char then Some ([], r)
      else if Ascii.eqb c "\"%char then
        match r with
        | u :: r' =>
            if Ascii.eqb u "u"%char then
              match r' with
              | a :: b :: c' :: d :: r'' =>
                  match unicode_char a b c' d, p_string r'' with
                  | Some x, Some (s, rest) => Some (x :: s, rest)
                  | _, _ => None
                  end
              | _ => None
              end
            else
              match simple_escape u, p_string r' with
              | Some x, Some (s, rest) => Some (x :: s, rest)
              | _, _ => None
              end
        | [] => None
        end
      else if nat_of_ascii c <? 32 then None
      else match p_string r with
           | Some (s, rest) => Some (c :: s, rest)
           | None => None
           end
  end.

(** A number: [-? (0 | [1-9][0-9]* ) (. [0-9]+)? ([eE] [+-]? [0-9]+)?]. *)
Definition p_number (l : list ascii) : option (list ascii * list ascii) :=
  let '(sgn, l1) := match l with
                    | c :: r => if Ascii.eqb c "-"%char then ([c], r) else ([], l)
                    | [] => ([], [])
                    end in
  let int_part :=
    match l1 with
    | c :: r =>
        if Ascii.eqb c "0"%char then Some ([c], r)
        else if is_digit c then let '(ds, r') := take_digits r in Some (c :: ds, r')
        else None
    | [] => None
    end in
  match int_part with
  | None => None
  | Some (ip, l2) =>
      let frac :=
        match l2 with
        | c :: r =>
            if Ascii.eqb c "."%char then
              match take_digits r with
              | ([], _) => None
              | (ds, r') => Some (c :: ds, r')
              end
            else Some ([], l2)
        | [] => Some ([], [])
        end in
      match frac with
      | None => None
      | Some (fp, l3) =>
          let expo :=
            match l3 with
            | e :: r =>
                if Ascii.eqb e "e"%char || Ascii.eqb e "E"%char then
                  let '(es, r1) := match r with
                                   | s :: r0 => if Ascii.eqb s "+"%char || Ascii.eqb s "-"%char
                                                then ([s], r0) else ([], r)
                                   | [] => ([], [])
                                   end in
                  match take_digits r1 with
                  | ([], _) => None
                  | (ds, r') => Some ((e :: es ++ ds)%list, r')
                  end
                else Some ([], l3)
            | [] => Some ([], [])
            end in
          match expo with
          | None => None
          | Some (xp, l4) => Some ((sgn ++ ip ++ fp ++ xp)%list, l4)
          end
      end
  end.

Fixpoint p_value (fuel : nat) (l : list ascii) : option (json * list ascii) :=
  match fuel with
  | 0 => None
  | S f =>
      match skip_ws l with
      | "n"%char :: "u"%char :: "l"%char :: "l"%char :: r => Some (JNull, r)
      | "t"%char :: "r"%char :: "u"%char :: "e"%char :: r => Some (JBool true, r)
      | "f"%char :: "a"%char :: "l"%char :: "s"%char :: "e"%char :: r => Some (JBool false, r)
      | c :: r =>
          if Ascii.eqb c dq_char then
            match p_string r with
            | Some (s, r') => Some (JStr (string_of_list_ascii s), r')
            | None => None
            end
          else if Ascii.eqb c "["%char then
            match skip_ws r with
            | "]"%char :: r' => Some (JArr [], r')
            | _ => p_items f r []
            end
          else if Ascii.eqb c "{"%char then
            match skip_ws r with
            | "}"%char :: r' => Some (JObj [], r')
            | _ => p_members f r []
            end
          else
            match p_number (c :: r) with
            | Some (n, r') => Some (JNum (string_of_list_ascii n), r')
            | None => None
            end
      | [] => None
      end
  end
(** The items of an array, after [[] and the items in [acc]. *)
with p_items (fuel : nat) (l : list ascii) (acc : list json) : option (json * list ascii) :=
  match fuel with
  | 0 => None
  | S f =>
      match p_value f l with
      | None => None
      | Some (v, r) =>
          match skip_ws r with
          | ","%char :: r' => p_items f r' (acc ++ [v])%list
          | "]"%char :: r' => Some (JArr (acc ++ [v])%list, r')
          | _ => None
          end
      end
  end
(** The members of an object, after [{] and the members in [acc]. *)
with p_members (fuel : nat) (l : list ascii) (acc : list (string * json))
  : option (json * list ascii) :=
  match fuel with
  | 0 => None
  | S f =>
      match skip_ws l with
      | c :: r =>
          if negb (Ascii.eqb c dq_char) then None else
          match p_string r with
          | None => None
          | Some (k, r1) =>
              match skip_ws r1 with
              | ":"%char :: r2 =>
                  match p_value f r2 with
                  | None => None
                  | Some (v, r3) =>
                      let acc' := (acc ++ [(string_of_list_ascii k, v)])%list in
                      match skip_ws r3 with
                      | ","%char :: r4 => p_members f r4 acc'
                      | "}"%char :: r4 => Some (JObj acc', r4)
                      | _ => None
                      end
                  end
              | _ => None
              end
          end
      | [] => None
      end
  end.

(** [JSON.parse(text)]; every nested call consumes a character, so the fuel
    never runs out on a text of this length. *)
Definition JSON_parse (text : string) : option json :=
  let l := list_ascii_of_string text in
  match p_value (2 * length l + 2) l with
  | Some (v, r) => match skip_ws r with [] => Some v | _ => None end
  | None => None
  end.

(** Property lookup on a parsed object; with duplicate keys the last wins. *)
Definition json_get (j : json) (k : string) : option json :=
  match j with
  | JObj fs => fold_left (fun acc '(k', v) => if String.eqb k k' then Some v else acc) fs None
  | _ => None
  end.

(* ------------------------------------------------------------------ *)
(** ** The handler monad: state passing over the [World], with the
    exceptions of an async function *)

Definition M (A : Type) := World -> res A * World.

Definition ret {A} (a : A) : M A := fun w => (Ok a, w).

Definition bind {A B} (m : M A) (k : A -> M B) : M B :=
  fun w => match m w with
           | (Ok a, w') => k a w'
           | (Throw e, w') => (Throw e, w')
           end.

(** [throw new Error(message)] *)
Definition throw {A} (message : option string) : M A := fun w => (Throw message, w).

(** [try { m } catch (err) { h(err.message) }] *)
Definition try_catch {A} (m : M A) (h : option string -> M A) : M A :=
  fun w => match m w with
           | (Ok a, w') => (Ok a, w')
           | (Throw e, w') => h e w'
           end.

Notation "x <- m ;; k" := (bind m (fun x => k))
  (at level 61, m at next level, right associativity).
Notation "m ;; k" := (bind m (fun _ => k))
  (at level 61, right associativity).

Definition get_world : M World := fun w => (Ok w, w).
Definition put_world (w : World) : M unit := fun _ => (Ok tt, w).

Definition with_st (w : World) (s : AppState) : World :=
  mkWorld s (aistudio w) (env_API_KEY w) (clock w) (image_replies w) (text_replies w) (log w).

Definition modify (f : AppState -> AppState) : M unit :=
  fun w => (Ok tt, with_st w (f (st w))).

Definition get_st : M AppState := fun w => (Ok (st w), w).

(** The React setters. *)
Definition setStep (a : AppStep) : M unit := modify (fun s =>
  mkAppState a (hasKey s) (errorMsg s) (brandInfo s) (concepts s)
    (selectedConcept s) (styleGuide s) (loadingMsg s)).
Definition setHasKey (b : bool) : M unit := modify (fun s =>
  mkAppState (step s) b (errorMsg s) (brandInfo s) (concepts s)
    (selectedConcept s) (styleGuide s) (loadingMsg s)).
Definition setErrorMsg (m : option string) : M unit := modify (fun s =>
  mkAppState (step s) (hasKey s) m (brandInfo s) (concepts s)
    (selectedConcept s) (styleGuide s) (loadingMsg s)).
Definition setBrandInfo (b : BrandInfo) : M unit := modify (fun s =>
  mkAppState (step s) (hasKey s) (errorMsg s) b (concepts s)
    (selectedConcept s) (styleGuide s) (loadingMsg s)).
Definition setConcepts (l : list LogoConcept) : M unit := modify (fun s =>
  mkAppState (step s) (hasKey s) (errorMsg s) (brandInfo s) l
    (selectedConcept s) (styleGuide s) (loadingMsg s)).
Definition setSelectedConcept (c : option LogoConcept) : M unit := modify (fun s =>
  mkAppState (step s) (hasKey s) (errorMsg s) (brandInfo s) (concepts s)
    c (styleGuide s) (loadingMsg s)).
Definition setStyleGuide (g : option StyleGuide) : M unit := modify (fun s =>
  mkAppState (step s) (hasKey s) (errorMsg s) (brandInfo s) (concepts s)
    (selectedConcept s) g (loadingMsg s)).
Definition setLoadingMsg (m : string) : M unit := modify (fun s =>
  mkAppState (step s) (hasKey s) (errorMsg s) (brandInfo s) (concepts s)
    (selectedConcept s) (styleGuide s) m).

(** Appends an observable effect to the log. *)
Definition emit (e : Event) : M unit :=
  fun w => (Ok tt, mkWorld (st w) (aistudio w) (env_API_KEY w) (clock w)
                      (image_replies w) (text_replies w) (log w ++ [e])%list).

Definition alert (msg : string) : M unit := emit (EvAlert msg).

(** [process.env.API_KEY], read when a client is constructed. *)
Definition read_API_KEY : M (option string) := fun w => (Ok (env_API_KEY w), w).

(** [Date.now()]: the next scripted reading (0 once they are used up). *)
Definition Date_now : M nat :=
  fun w => match clock w with
           | t :: ts => (Ok t, mkWorld (st w) (aistudio w) (env_API_KEY w) ts
                                  (image_replies w) (text_replies w) (log w))
           | [] => (Ok 0, w)
           end.

Definition get_aistudio : M (option Host) := fun w => (Ok (aistudio w), w).

(** [window.aistudio.hasSelectedApiKey()] *)
Definition hasSelectedApiKey : M bool :=
  emit EvHasSelectedApiKey;;
  h <- get_aistudio;;
  match h with
  | Some h => ret (has_selected h)
  | None => throw (Some "Cannot read properties of undefined")
  end.

(** [window.aistudio.openSelectKey()]: on success the host installs the
    chosen key and reports it selected from then on. *)
Definition openSelectKey : M unit :=
  emit EvOpenSelectKey;;
  fun w => match aistudio w with
           | Some h =>
               match select_key h with
               | Ok k => (Ok tt, mkWorld (st w) (Some (mkHost true (select_key h))) (Some k)
                                   (clock w) (image_replies w) (text_replies w) (log w))
               | Throw m => (Throw m, w)
               end
           | None => (Throw (Some "Cannot read properties of undefined"), w)
           end.

(** [ai.models.generateContent] on an image model: the request is sent
    (logged with the client's key) and the next scripted reply is the
    promise's outcome; with no reply left the request fails. *)
Definition send_image (apiKey : option string) (model prompt : string) : M (res ImageResponse) :=
  emit (EvGenerate model apiKey prompt);;
  fun w => match image_replies w with
           | r :: rs => (Ok r, mkWorld (st w) (aistudio w) (env_API_KEY w) (clock w)
                                    rs (text_replies w) (log w))
           | [] => (Ok (Throw None), w)
           end.

(** [await] of that request. *)
Definition generateImage (apiKey : option string) (model prompt : string) : M ImageResponse :=
  r <- send_image apiKey model prompt;;
  match r with
  | Ok resp => ret resp
  | Throw m => throw m
  end.

(** [ai.models.generateContent] on a text model; the value is [response.text]. *)
Definition generateText (apiKey : option string) (model prompt : string) : M (option string) :=
  emit (EvGenerate model apiKey prompt);;
  fun w => let w' := mkWorld (st w) (aistudio w) (env_API_KEY w) (clock w)
                             (image_replies w) (tl (text_replies w)) (log w) in
           match text_replies w with
           | Ok t :: _ => (Ok t, w')
           | Throw m :: _ => (Throw m, w')
           | [] => (Throw None, w)
           end.

(** [JSON.parse(text)], throwing a [SyntaxError] on a malformed text. *)
Definition JSON_parse_m (text : string) : M json :=
  match JSON_parse text with
  | Some v => ret v
  | None => throw (Some "Unexpected token in JSON")
  end.

(** The state's value for a parsed style guide: a parsed [null] is [null]. *)
Definition guide_of_json (v : json) : option StyleGuide :=
  match v with JNull => None | _ => Some v end.

(** [err.message?.includes(sub)] *)
Definition msg_includes (m : option string) (sub : string) : bool :=
  match m with Some s => includes s sub | None => false end.

(** [`${part.inlineData.data}`]: an absent [data] prints as [undefined]. *)
Definition show_data (d : option string) : string :=
  match d with Some s => s | None => "undefined" end.

(** The loop over the parts: every part with [inlineData] overwrites
    [imageUrl]. *)
Definition image_url_of (parts : list Part) : string :=
  fold_left (fun url part =>
               match inlineData part with
               | Some b => "data:image/png;base64," ++ show_data (data b)
               | None => url
               end) parts "".

(* ------------------------------------------------------------------ *)
(** ** The component of [src/App.tsx] *)

Module App.

Definition styles : list string :=
  [ "minimalist vector emblem, high-end professional brand mark, clean lines, solid white background";
    "bold modern geometric icon, corporate flat design, high contrast, solid white background";
    "elegant premium typographic mark, unique letterform logo, professional design, solid white background" ].

Definition logo_prompt (brand : BrandInfo) (styleModifier : string) : string :=
  "Create a professional logo for:" ++ nl ++
  "Name: " ++ businessName brand ++ nl ++
  "Industry: " ++ industry brand ++ nl ++
  "Style: " ++ preferredStyle brand ++ ", " ++ styleModifier ++ nl ++
  "Values: " ++ coreValues brand ++ nl ++
  "Audience: " ++ targetAudience brand ++ nl ++ nl ++
  "Technical Requirements: Vector style, minimalist icon, flat design, solid white background. No realistic photos, no complex gradients, no 3D effects. Clean and scalable.".

Definition empty_result_msg : string :=
  "The design engine returned an empty result. This usually happens if the prompt is too vague or the model is overloaded.".

(** [handleOpenKeySelector] *)
Definition handleOpenKeySelector : M bool :=
  h <- get_aistudio;;
  match h with
  | Some _ => try_catch (openSelectKey;; setHasKey true;; ret true) (fun _ => ret false)
  | None => ret false
  end.

(** [checkKey], run by the [useEffect] of the first render; a failed check
    is only logged to the console. *)
Definition checkKey : M unit :=
  h <- get_aistudio;;
  match h with
  | Some _ => try_catch (selected <- hasSelectedApiKey;; setHasKey selected) (fun _ => ret tt)
  | None => ret tt
  end.

(** The [catch] of a turn of the loop: the message of the error it throws. *)
Definition concept_error (message : option string) : string :=
  if msg_includes message "404" || msg_includes message "not found" then "BILLING_REQUIRED"
  else if msg_includes message "429" then "Too many requests. Please wait 60 seconds and try again."
  else if msg_includes message "API key" then "INVALID_KEY"
  else opt_str_or message "Failed to generate concept. Please check your connection.".

(** One turn of the loop of [generateLogoConcepts], for [styles[i]]. *)
Definition concept_step (brand : BrandInfo) (i : nat) (styleModifier : string) : M LogoConcept :=
  setLoadingMsg ("Designing visual concept " ++ show_nat (i + 1) ++ " of 3...");;
  let prompt := logo_prompt brand styleModifier in
  apiKey <- read_API_KEY;;
  try_catch
    (response <- generateImage apiKey "gemini-2.5-flash-image" prompt;;
     let imageUrl := image_url_of (first_parts response) in
     if String.eqb imageUrl "" then throw (Some empty_result_msg) else
     now <- Date_now;;
     ret (mkLogoConcept
            ("concept-" ++ show_nat now ++ "-" ++ show_nat i)
            imageUrl
            ("Strategic identity design focused on " ++ split_first ","%char styleModifier ++ ".")
            ("Concept " ++ show_nat (i + 1))))
    (fun message => throw (Some (concept_error message))).

(** [for (let i = 0; i < styles.length; i++)], pushing onto [results]. *)
Fixpoint concept_loop (brand : BrandInfo) (ss : list string) (i : nat)
    (results : list LogoConcept) : M (list LogoConcept) :=
  match ss with
  | [] => ret results
  | s :: rest =>
      c <- concept_step brand i s;;
      concept_loop brand rest (S i) (results ++ [c])%list
  end.

(** [generateLogoConcepts] *)
Definition generateLogoConcepts (brand : BrandInfo) : M (list LogoConcept) :=
  concept_loop brand styles 0 [].

Definition billing_msg : string :=
  "Your current API key doesn't have image generation enabled. Please select a project with billing enabled in Google AI Studio.".

(** The [catch] of [handleGenerate]: the text shown in the wizard. *)
Definition classify (message : option string) : string :=
  match message with
  | Some m =>
      if String.eqb m "BILLING_REQUIRED" then billing_msg
      else if String.eqb m "INVALID_KEY" then
        "The selected API key is invalid or expired. Please re-select your key."
      else str_or m "An unexpected error occurred during design generation."
  | None => "An unexpected error occurred during design generation."
  end.

(** The credential gate at the start of [handleGenerate]: [true] when the
    handler goes on to generate. *)
Definition key_gate : M bool :=
  h <- get_aistudio;;
  match h with
  | Some _ =>
      selected <- hasSelectedApiKey;;
      if selected then ret true else handleOpenKeySelector
  | None => ret true
  end.

(** The part of [handleGenerate] after its credential gate. *)
Definition generate_phase (brand : BrandInfo) : M unit :=
  setStep GENERATING;;
  setLoadingMsg "Initializing AI Design Studio...";;
  try_catch
    (results <- generateLogoConcepts brand;;
     setConcepts results;;
     setStep GALLERY)
    (fun message =>
       setErrorMsg (Some (classify message));;
       setStep WIZARD).

(** [handleGenerate], the submit of the brief form. *)
Definition handleGenerate : M unit :=
  s <- get_st;;
  let brand := brandInfo s in
  setErrorMsg None;;
  go <- key_gate;;
  if negb go then ret tt else generate_phase brand.

Definition guide_notice : string :=
  "Logo finalize! We encountered a small issue generating the style guide, but your logo is ready.".

Definition guide_prompt (brand : BrandInfo) (concept : LogoConcept) : string :=
  "Based on the brand " ++ quoted (businessName brand) ++
  " and the selected logo concept: " ++ quoted (description concept) ++
  ", create a professional style guide in JSON format.".

(** [handleSelectLogo] *)
Definition handleSelectLogo (concept : LogoConcept) : M unit :=
  s <- get_st;;
  let brand := brandInfo s in
  setSelectedConcept (Some concept);;
  setStep GENERATING;;
  setLoadingMsg "Extending your brand visual system...";;
  try_catch
    (apiKey <- read_API_KEY;;
     text <- generateText apiKey "gemini-3-flash-preview" (guide_prompt brand concept);;
     parsed <- JSON_parse_m (opt_str_or text "{}");;
     setStyleGuide (guide_of_json parsed);;
     setStep STYLE_GUIDE)
    (fun _ =>
       alert guide_notice;;
       setStep GALLERY).

(** What the user can do, by the buttons and the form the page renders. *)
Inductive UiEvent :=
| Start                      (** "Start Your Project", shown in IDLE *)
| Home                       (** the header logo: any stage *)
| BackArrow                  (** the back arrow of the wizard *)
| Restart                    (** "Restart Studio", on the style guide *)
| TryDifferent               (** "Try Different Parameters", in the gallery *)
| EditBrand (b : BrandInfo)  (** typing in the form of the wizard *)
| Submit                     (** the form's submit *)
| Finalize (c : LogoConcept) (** "Finalize Brand Kit" on a card of the gallery *)
| ConnectKey.                (** the key button of the header: any stage *)

Definition on_step (a : AppStep) (m : M unit) : M unit :=
  s <- get_st;; if AppStep_eqb (step s) a then m else ret tt.

Definition concept_eqb (a b : LogoConcept) : bool :=
  String.eqb (id a) (id b) && String.eqb (imageUrl a) (imageUrl b) &&
  String.eqb (description a) (description b) && String.eqb (conceptName a) (conceptName b).

(** The cards of the gallery are the concepts of the state. *)
Definition on_card (c : LogoConcept) (m : M unit) : M unit :=
  s <- get_st;; if existsb (concept_eqb c) (concepts s) then m else ret tt.

(** The [required] inputs of the form (name, industry, values): the browser
    blocks the submit while one of them is empty. *)
Definition form_valid (b : BrandInfo) : bool :=
  negb (String.eqb (businessName b) "") && negb (String.eqb (industry b) "") &&
  negb (String.eqb (coreValues b) "").

Definition dispatch (e : UiEvent) : M unit :=
  match e with
  | Start => on_step IDLE (setStep WIZARD)
  | Home => setStep IDLE
  | BackArrow => on_step WIZARD (setStep IDLE)
  | Restart => on_step STYLE_GUIDE (setStep IDLE)
  | TryDifferent => on_step GALLERY (setStep WIZARD)
  | EditBrand b => on_step WIZARD (setBrandInfo b)
  | Submit => on_step WIZARD (s <- get_st;; if form_valid (brandInfo s) then handleGenerate else ret tt)
  | Finalize c => on_step GALLERY (on_card c (handleSelectLogo c))
  | ConnectKey => _ <- handleOpenKeySelector;; ret tt
  end.

(** Truthiness of a parsed value: [false], [0] and [""] are falsy. *)
Definition num_is_zero (lexeme : string) : bool :=
  forallb (fun c => Ascii.eqb c "-"%char || Ascii.eqb c "0"%char || Ascii.eqb c "."%char)
    (list_ascii_of_string (split_first "e"%char (split_first "E"%char lexeme))).

Definition js_truthy (v : json) : bool :=
  match v with
  | JNull => false
  | JBool b => b
  | JNum n => negb (num_is_zero n)
  | JStr s => negb (String.eqb s "")
  | _ => true
  end.

(** A value React can render as a child: a plain object throws, an array
    renders its items. *)
Fixpoint child_ok (v : json) : bool :=
  match v with
  | JObj _ => false
  | JArr items => (fix go (l : list json) : bool :=
                     match l with [] => true | x :: r => child_ok x && go r end) items
  | _ => true
  end.

Definition opt_child_ok (v : option json) : bool :=
  match v with Some v => child_ok v | None => true end.

(** The STYLE_GUIDE page renders the three colours and the font as
    children and calls [styleGuide.usageTips.map]; a render that throws has
    no error boundary to catch it. *)
Definition render_crashes (s : AppState) : bool :=
  match step s, styleGuide s, selectedConcept s with
  | STYLE_GUIDE, Some g, Some _ =>
      js_truthy g &&
      negb (opt_child_ok (json_get g "primaryColor") && opt_child_ok (json_get g "secondaryColor") &&
            opt_child_ok (json_get g "accentColor") && opt_child_ok (json_get g "fontFamily") &&
            match json_get g "usageTips" with
            | Some (JArr tips) => forallb child_ok tips
            | _ => false
            end)
  | _, _, _ => false
  end.

(** A handler that throws leaves its rejection unhandled; the page stays as
    the handler left it. A render that throws unmounts the page: no later
    event reaches it. *)
Fixpoint run (es : list UiEvent) (w : World) : World :=
  match es with
  | [] => w
  | e :: es' =>
      let w' := snd (dispatch e w) in
      if render_crashes (st w') then w' else run es' w'
  end.

Definition init_state : AppState :=
  mkAppState IDLE false None (mkBrandInfo "" "" "" "" "Modern") [] None None "".

End App.

(* ------------------------------------------------------------------ *)
(** ** [src/services/geminiService.ts] *)

Module GeminiService.

(** [const API_KEY = process.env.API_KEY || ""], at module load. *)
Definition API_KEY_at_load (env : option string) : string := opt_str_or env "".

(** The class's state: [private static ai = new GoogleGenAI({ apiKey: API_KEY })],
    built once when the module is loaded. *)
Record Service := mkService { ai_apiKey : string }.

Definition load (env_at_load : option string) : Service :=
  mkService (API_KEY_at_load env_at_load).

Definition styles : list string :=
  [ "minimalist and vector style";
    "bold and modern geometric";
    "elegant and professional typography" ].

Definition indent (n : nat) : string := nl ++ String.concat "" (repeat " " n).

Definition logo_prompt (brand : BrandInfo) (styleModifier : string) : string :=
  "Professional professional logo for a small business named " ++ quoted (businessName brand) ++
  " in the " ++ industry brand ++ " industry. " ++ indent 6 ++
  "Values: " ++ coreValues brand ++ ". Style: " ++ preferredStyle brand ++ ", " ++
  styleModifier ++ ". " ++ indent 6 ++
  "Target Audience: " ++ targetAudience brand ++ ". " ++ indent 6 ++
  "The logo should be modern, memorable, high resolution, white background, no text besides the business name if appropriate.".

(** The object each callback of [styles.map] resolves to. *)
Definition make_concept (brand : BrandInfo) (index : nat) (styleModifier : string)
    (response : ImageResponse) : LogoConcept :=
  mkLogoConcept
    ("concept-" ++ show_nat index)
    (image_url_of (first_parts response))
    ("This design focuses on " ++ styleModifier ++ " to reflect " ++ coreValues brand ++ ".")
    ("Concept " ++ show_nat (index + 1) ++ ": " ++ split_first " "%char styleModifier).

(** [styles.map(async ...)]: every callback sends its request before the
    first one settles; the settled outcomes, in index order. *)
Fixpoint send_all (svc : Service) (brand : BrandInfo) (ss : list string) (index : nat)
  : M (list (nat * string * res ImageResponse)) :=
  match ss with
  | [] => ret []
  | s :: rest =>
      r <- send_image (Some (ai_apiKey svc)) "gemini-2.5-flash-image" (logo_prompt brand s);;
      rs <- send_all svc brand rest (S index);;
      ret ((index, s, r) :: rs)
  end.

(** [Promise.all]: the concepts when every request succeeds, otherwise a
    rejection (the one of the lowest index: which rejection settles first is
    not modelled). *)
Fixpoint all_settled (brand : BrandInfo) (rs : list (nat * string * res ImageResponse))
  : res (list LogoConcept) :=
  match rs with
  | [] => Ok []
  | (index, s, Ok resp) :: rest =>
      match all_settled brand rest with
      | Ok cs => Ok (make_concept brand index s resp :: cs)
      | Throw m => Throw m
      end
  | (_, _, Throw m) :: _ => Throw m
  end.

(** [GeminiService.generateLogoConcepts] *)
Definition generateLogoConcepts (svc : Service) (brand : BrandInfo) : M (list LogoConcept) :=
  rs <- send_all svc brand styles 0;;
  match all_settled brand rs with
  | Ok cs => ret cs
  | Throw m => throw m
  end.

Definition guide_prompt (brand : BrandInfo) (selectedLogo : LogoConcept) : string :=
  "Based on a logo that is " ++ description selectedLogo ++ " for " ++
  quoted (businessName brand) ++ ", " ++ indent 4 ++
  "provide a professional style guide including:" ++ indent 4 ++
  "1. Primary, Secondary, and Accent hex colors that match this aesthetic." ++ indent 4 ++
  "2. A professional font suggestion from Google Fonts." ++ indent 4 ++
  "3. 3-4 usage tips for maintaining brand consistency.".

(** [GeminiService.generateStyleGuide]: [JSON.parse(response.text)], which
    throws on an absent text as on a malformed one. *)
Definition generateStyleGuide (svc : Service) (brand : BrandInfo) (selectedLogo : LogoConcept)
  : M StyleGuide :=
  text <- generateText (Some (ai_apiKey svc)) "gemini-3-flash-preview" (guide_prompt brand selectedLogo);;
  match text with
  | Some t => JSON_parse_m t
  | None => throw (Some "undefined is not valid JSON")
  end.

End GeminiService.

(* ------------------------------------------------------------------ *)
(** ** The component of [src/unnamed/part_000] that calls [GeminiService] *)

Module AppGemini.

(** [handleGenerate] *)
Definition handleGenerate (svc : GeminiService.Service) : M unit :=
  s <- get_st;;
  let brand := brandInfo s in
  setStep GENERATING;;
  setLoadingMsg "Analyzing brand identity...";;
  try_catch
    (setLoadingMsg "Crafting 3 unique logo concepts...";;
     results <- GeminiService.generateLogoConcepts svc brand;;
     setConcepts results;;
     setStep GALLERY)
    (fun _ =>
       alert "Failed to generate logos. Please try again.";;
       setStep WIZARD).

(** [handleSelectLogo] *)
Definition handleSelectLogo (svc : GeminiService.Service) (concept : LogoConcept) : M unit :=
  s <- get_st;;
  let brand := brandInfo s in
  setSelectedConcept (Some concept);;
  setStep GENERATING;;
  setLoadingMsg "Generating professional style guide...";;
  try_catch
    (guide <- GeminiService.generateStyleGuide svc brand concept;;
     setStyleGuide (guide_of_json guide);;
     setStep STYLE_GUIDE)
    (fun _ =>
       alert "Error creating style guide.";;
       setStep GALLERY).

End AppGemini.

(* ------------------------------------------------------------------ *)
(** ** The earlier variant of [App.tsx] kept in [src/unnamed/part_000]

    Its [handleOpenKeySelector] is the one of [App.tsx], word for word. *)

Module AppV1.

Definition styles : list string :=
  [ "minimalist vector emblem, high-end professional brand mark, clean lines, solid background";
    "bold modern geometric icon, corporate flat design, high contrast, minimalist";
    "elegant premium typographic mark, unique letterform logo, solid professional color" ].

Definition logo_prompt (brand : BrandInfo) (styleModifier : string) : string :=
  "Create a professional corporate logo for:" ++ nl ++
  "Business Name: " ++ businessName brand ++ nl ++
  "Industry: " ++ industry brand ++ nl ++
  "Style: " ++ preferredStyle brand ++ ", " ++ styleModifier ++ nl ++
  "Values: " ++ coreValues brand ++ nl ++
  "Technical requirements: Flat vector style, high resolution icon, solid white background. No complex gradients, no 3D renders, no realistic photos. Pure graphic design icon.".

(** The [catch] of a turn of the loop; [throw err] keeps the message. *)
Definition concept_error (message : option string) : option string :=
  if msg_includes message "404" || msg_includes message "not found" then Some "MODEL_NOT_FOUND"
  else if msg_includes message "429" then Some "Rate limit reached. Please wait a moment and try again."
  else if msg_includes message "API key" then Some "INVALID_KEY"
  else message.

Definition concept_step (brand : BrandInfo) (i : nat) (styleModifier : string) : M LogoConcept :=
  setLoadingMsg ("Architecting concept " ++ show_nat (i + 1) ++ " of 3...");;
  let prompt := logo_prompt brand styleModifier in
  apiKey <- read_API_KEY;;
  try_catch
    (response <- generateImage apiKey "gemini-2.5-flash-image" prompt;;
     let imageUrl := image_url_of (first_parts response) in
     if String.eqb imageUrl "" then
       throw (Some "Design engine didn't return visual data. Check your prompt or try again.")
     else
     ret (mkLogoConcept
            ("concept-" ++ show_nat i)
            imageUrl
            ("Strategic identity design focusing on " ++ split_first ","%char styleModifier ++ ".")
            ("Direction " ++ show_nat (i + 1))))
    (fun message => throw (concept_error message)).

Fixpoint concept_loop (brand : BrandInfo) (ss : list string) (i : nat)
    (results : list LogoConcept) : M (list LogoConcept) :=
  match ss with
  | [] => ret results
  | s :: rest =>
      c <- concept_step brand i s;;
      concept_loop brand rest (S i) (results ++ [c])%list
  end.

Definition generateLogoConcepts (brand : BrandInfo) : M (list LogoConcept) :=
  concept_loop brand styles 0 [].

Definition key_issue_msg : string :=
  "API Key Issue: Please ensure you have selected an API key from a project with billing enabled. Image generation requires a paid tier project.".

(** The part of [handleGenerate] after its credential gate; on a key issue
    it opens the key selector again (no generation request). *)
Definition generate_phase (brand : BrandInfo) : M unit :=
  setStep GENERATING;;
  setLoadingMsg "Connecting to Design Engine...";;
  try_catch
    (results <- generateLogoConcepts brand;;
     setConcepts results;;
     setStep GALLERY)
    (fun message =>
       match message with
       | Some m =>
           if String.eqb m "MODEL_NOT_FOUND" || String.eqb m "INVALID_KEY" then
             setErrorMsg (Some key_issue_msg);;
             setStep WIZARD;;
             h <- get_aistudio;;
             match h with Some _ => openSelectKey | None => ret tt end
           else
             setErrorMsg (Some (str_or m "An unexpected error occurred. Please refresh the page and try again."));;
             setStep WIZARD
       | None =>
           setErrorMsg (Some "An unexpected error occurred. Please refresh the page and try again.");;
           setStep WIZARD
       end).

(** [handleGenerate] *)
Definition handleGenerate : M unit :=
  s <- get_st;;
  let brand := brandInfo s in
  setErrorMsg None;;
  go <- App.key_gate;;
  if negb go then ret tt else generate_phase brand.

Definition guide_notice : string :=
  "Logo generated! However, we had trouble drafting the full guide.".

Definition guide_prompt (brand : BrandInfo) (concept : LogoConcept) : string :=
  "Based on this brand " ++ quoted (businessName brand) ++
  " and this logo design (" ++ description concept ++
  "), create a complete brand style guide in JSON.".

(** [handleSelectLogo] *)
Definition handleSelectLogo (concept : LogoConcept) : M unit :=
  s <- get_st;;
  let brand := brandInfo s in
  setSelectedConcept (Some concept);;
  setStep GENERATING;;
  setLoadingMsg "Crafting your digital brand manual...";;
  try_catch
    (apiKey <- read_API_KEY;;
     text <- generateText apiKey "gemini-3-flash-preview" (guide_prompt brand concept);;
     parsed <- JSON_parse_m (opt_str_or text "{}");;
     setStyleGuide (guide_of_json parsed);;
     setStep STYLE_GUIDE)
    (fun _ =>
       alert guide_notice;;
       setStep GALLERY).

End AppV1.

(* ------------------------------------------------------------------ *)
(** ** Observations used by the statements *)

(** The state of the component apart from the progress text and the key badge. *)
Definition core (s : AppState) :=
  (step s, errorMsg s, brandInfo s, concepts s, selectedConcept s, styleGuide s).

Definition count_generate (l : list Event) : nat := length (filter is_generate l).

(** A reply the image loop accepts: a response carrying an inline image. *)
Definition image_ok (r : res ImageResponse) : bool :=
  match r with
  | Ok resp => negb (String.eqb (image_url_of (first_parts resp)) "")
  | Throw _ => false
  end.

(** The [err.message] a turn of the loop catches for a reply it refuses. *)
Definition reply_message (r : res ImageResponse) : option string :=
  match r with
  | Ok _ => Some App.empty_result_msg
  | Throw m => m
  end.

Definition next_reply (w : World) : res ImageResponse := hd (Throw None) (image_replies w).

(** Every concept of a successful run of the loop: its id ends in its index,
    its image is not empty. *)
Definition concept_shape (c : LogoConcept) (j : nat) : Prop :=
  (exists t, id c = "concept-" ++ show_nat t ++ "-" ++ show_nat j) /\ imageUrl c <> "".

(** Whether the credential gate of [handleGenerate] lets it go on. *)
Definition gate_passes (w : World) : bool :=
  match aistudio w with
  | None => true
  | Some h => has_selected h || match select_key h with Ok _ => true | Throw _ => false end
  end.

(** The effects of the gate. *)
Definition gate_events (w : World) : list Event :=
  match aistudio w with
  | None => []
  | Some h => EvHasSelectedApiKey :: if has_selected h then [] else [EvOpenSelectKey]
  end.

(** The last character of a string. *)
Fixpoint last_char (s : string) : option ascii :=
  match s with
  | EmptyString => None
  | String c EmptyString => Some c
  | String _ r => last_char r
  end.

(** [m] only appends effects satisfying [P]. *)
Definition emits (P : Event -> bool) {A} (m : M A) : Prop :=
  forall w, exists rest, log (snd (m w)) = (log w ++ rest)%list /\ forallb P rest = true.

(** The effects that query or select the credential. *)
Definition is_credential (e : Event) : bool :=
  match e with EvHasSelectedApiKey | EvOpenSelectKey => true | _ => false end.

Definition keeps {X} (f : AppState -> X) {A} (m : M A) : Prop :=
  forall w, f (st (snd (m w))) = f (st w).

(** A style guide only with a selected concept; no concepts or the three
    of a successful batch. *)
Definition inv (s : AppState) : Prop :=
  (styleGuide s <> None -> selectedConcept s <> None) /\
  (concepts s = [] \/ length (concepts s) = 3).

(** The client's key in a request. *)
Definition sent_with (k : string) (e : Event) : bool :=
  match e with
  | EvGenerate _ (Some k') _ => String.eqb k' k
  | EvGenerate _ None _ => false
  | _ => true
  end.

Definition demo_brand : BrandInfo :=
  mkBrandInfo "Acme Bakery" "Food" "Warmth" "Families" "Modern".

(** A style guide reply with the fields the STYLE_GUIDE page renders. *)
Definition demo_guide_text : string :=
  "{" ++ quoted "primaryColor" ++ ": " ++ quoted "#1A2B3C" ++ ", " ++
  quoted "secondaryColor" ++ ": " ++ quoted "#F5E6D3" ++ ", " ++
  quoted "accentColor" ++ ": " ++ quoted "#E07A5F" ++ ", " ++
  quoted "fontFamily" ++ ": " ++ quoted "Inter" ++ ", " ++
  quoted "usageTips" ++ ": [" ++ quoted "Keep clear space" ++ ", " ++
  quoted "Use on light backgrounds" ++ "]}".

Definition demo_state (a : AppStep) (cs : list LogoConcept) : AppState :=
  mkAppState a false None demo_brand cs None None "".

Definition demo_world (s : AppState) (h : option Host) (imgs : list (res ImageResponse))
    (txts : list (res (option string))) : World :=
  mkWorld s h (Some "key-1") [5; 6; 7] imgs txts [].

(** A response whose first candidate carries one image. *)
Definition png_response (d : string) : ImageResponse :=
  mkImageResponse [Some [mkPart (Some (mkBlob (Some d))) None]].

(** A response with text only. *)
Definition text_response : ImageResponse :=
  mkImageResponse [Some [mkPart None (Some "I can only describe this logo.")]].

Definition demo_concept : LogoConcept :=
  mkLogoConcept "concept-5-0" "data:image/png;base64,AAA"
    "Strategic identity design focused on minimalist vector emblem." "Concept 1".

(** The style guide request of [App.handleSelectLogo] fails: no reply, a
    rejected one, or a text [JSON.parse] refuses. *)
Definition guide_reply_fails (w : World) : bool :=
  match text_replies w with
  | Ok t :: _ => match JSON_parse (opt_str_or t "{}") with Some _ => false | None => true end
  | _ => true
  end.

(** The style guide of the spec: the three colours as strings and at least
    one usage tip. *)
Definition guide_well_formed (g : json) : bool :=
  let str_field k := match json_get g k with Some (JStr _) => true | _ => false end in
  str_field "primaryColor" && str_field "secondaryColor" && str_field "accentColor" &&
  match json_get g "usageTips" with Some (JArr (_ :: _)) => true | _ => false end.

(** The last part with [inlineData]. *)
Definition last_inline (parts : list Part) : option Blob :=
  fold_left (fun acc p => match inlineData p with Some b => Some b | None => acc end) parts None.

Definition inline_url (b : option Blob) : string :=
  match b with Some b => "data:image/png;base64," ++ show_data (data b) | None => "" end.

(** [process.env.API_KEY] once the credential gate of [handleGenerate] is
    through: the key the host installs when a selection succeeds. *)
Definition key_after_gate (w : World) : option string :=
  match aistudio w with
  | Some h =>
      if has_selected h then env_API_KEY w
      else match select_key h with Ok k => Some k | Throw _ => env_API_KEY w end
  | None => env_API_KEY w
  end.

(** A request whose prompt names every field of the brief. *)
Definition names_brief (brand : BrandInfo) (e : Event) : bool :=
  match e with
  | EvGenerate _ _ p =>
      includes p (businessName brand) && includes p (industry brand) &&
      includes p (coreValues brand) && includes p (targetAudience brand) &&
      includes p (preferredStyle brand)
  | _ => true
  end.

(** Every one of the first three image replies is a fulfilled request. *)
Definition batch_fulfilled (w : World) : Prop :=
  forall j, j < 3 -> exists r, nth j (image_replies w) (Throw None) = Ok r.

(* ------------------------------------------------------------------ *)
(** ** [JSON.parse] on sample texts *)

Example JSON_parse_guide :
  JSON_parse ("{" ++ quoted "primaryColor" ++ ": " ++ quoted "#112233" ++ ", " ++
              quoted "usageTips" ++ ": [" ++ quoted "a" ++ ", " ++ quoted "b" ++ "]}") =
  Some (JObj [("primaryColor", JStr "#112233"); ("usageTips", JArr [JStr "a"; JStr "b"])]).
Proof. reflexivity. Qed.

Example JSON_parse_rejects : JSON_parse "Sorry, I can't" = None.
Proof. reflexivity. Qed.

Example JSON_parse_number : JSON_parse " [-1.5e+3, 0, null, true] " =
  Some (JArr [JNum "-1.5e+3"; JNum "0"; JNull; JBool true]).
Proof. reflexivity. Qed.

(* ------------------------------------------------------------------ *)
(** ** Lemmas on the loop of [App.generateLogoConcepts] *)

Lemma count_generate_app (l1 l2 : list Event) :
  count_generate (l1 ++ l2) = count_generate l1 + count_generate l2.
Proof. unfold count_generate. rewrite filter_app, length_app. reflexivity. Qed.

Ltac world_simpl :=
  unfold bind, ret, throw, try_catch, modify, with_st, get_st, emit, read_API_KEY,
    Date_now, get_aistudio in *; cbn in *.

Lemma App_concept_step_ok brand i s w resp rs :
  image_replies w = Ok resp :: rs ->
  image_ok (Ok resp) = true ->
  exists t w1,
    App.concept_step brand i s w =
      (Ok (mkLogoConcept ("concept-" ++ show_nat t ++ "-" ++ show_nat i)
             (image_url_of (first_parts resp))
             ("Strategic identity design focused on " ++ split_first ","%char s ++ ".")
             ("Concept " ++ show_nat (i + 1))), w1) /\
    image_replies w1 = rs /\ core (st w1) = core (st w) /\
    aistudio w1 = aistudio w /\ env_API_KEY w1 = env_API_KEY w /\
    count_generate (log w1) = S (count_generate (log w)).
Proof.
  intros Hr Hok. unfold image_ok in Hok.
  unfold App.concept_step, generateImage, send_image, setLoadingMsg. world_simpl.
  rewrite Hr. cbn.
  destruct (String.eqb (image_url_of (first_parts resp)) "") eqn:E; [discriminate|].
  destruct (clock w) as [|t ts]; cbn.
  - exists 0. eexists. split; [reflexivity|]. cbn.
    repeat split; try reflexivity; unfold count_generate in *; cbn [log];
      rewrite ?filter_app, ?length_app; cbn; lia.
  - exists t. eexists. split; [reflexivity|]. cbn.
    repeat split; try reflexivity; unfold count_generate in *; cbn [log];
      rewrite ?filter_app, ?length_app; cbn; lia.
Qed.

Lemma App_concept_step_fail brand i s w :
  image_ok (next_reply w) = false ->
  exists w1,
    App.concept_step brand i s w =
      (Throw (Some (App.concept_error (reply_message (next_reply w)))), w1) /\
    core (st w1) = core (st w) /\
    aistudio w1 = aistudio w /\
    count_generate (log w1) = S (count_generate (log w)).
Proof.
  unfold next_reply, image_ok, reply_message. intros Hok.
  unfold App.concept_step, generateImage, send_image, setLoadingMsg. world_simpl.
  destruct (image_replies w) as [|[resp|m] rs]; cbn in *.
  - eexists. split; [reflexivity|].
    repeat split; try reflexivity; unfold count_generate in *; cbn [log];
      rewrite ?filter_app, ?length_app; cbn; lia.
  - destruct (String.eqb (image_url_of (first_parts resp)) "") eqn:E; [|discriminate].
    cbn. eexists. split; [reflexivity|].
    repeat split; try reflexivity; unfold count_generate in *; cbn [log];
      rewrite ?filter_app, ?length_app; cbn; lia.
  - eexists. split; [reflexivity|].
    repeat split; try reflexivity; unfold count_generate in *; cbn [log];
      rewrite ?filter_app, ?length_app; cbn; lia.
Qed.

Lemma image_ok_next_reply w :
  image_ok (next_reply w) = true ->
  exists resp rs, image_replies w = Ok resp :: rs /\ image_ok (Ok resp) = true.
Proof.
  unfold next_reply. destruct (image_replies w) as [|[resp|m] rs]; cbn; try discriminate.
  intros H. eauto.
Qed.

Lemma App_loop_ok brand ss :
  forall i acc w l w',
    App.concept_loop brand ss i acc w = (Ok l, w') ->
    exists l', l = (acc ++ l')%list /\ Forall2 concept_shape l' (seq i (length ss)) /\
      core (st w') = core (st w).
Proof.
  induction ss as [|s ss IH]; intros i acc w l w' H.
  - cbn in H. inversion H; subst. exists []. rewrite app_nil_r. repeat constructor.
  - cbn in H. unfold bind at 1 in H.
    destruct (image_ok (next_reply w)) eqn:Hok.
    + destruct (image_ok_next_reply w Hok) as (resp & rs & Hr & Hok').
      destruct (App_concept_step_ok brand i s w resp rs Hr Hok')
        as (t & w1 & Hs & _ & Hcore & _).
      rewrite Hs in H.
      destruct (IH (S i) _ w1 l w' H) as (l' & Hl & Hf & Hc).
      eexists. split.
      * rewrite Hl, <- app_assoc. reflexivity.
      * split; [|congruence]. cbn. constructor; [|exact Hf].
        split; [eexists; reflexivity|].
        cbn. unfold image_ok in Hok'. intros E. rewrite E in Hok'. discriminate.
    + destruct (App_concept_step_fail brand i s w Hok) as (w1 & Hs & _).
      rewrite Hs in H. discriminate.
Qed.

Lemma App_loop_fail_at brand ss :
  forall k i acc w,
    k < length ss ->
    (forall j, j < k -> image_ok (nth j (image_replies w) (Throw None)) = true) ->
    image_ok (nth k (image_replies w) (Throw None)) = false ->
    exists w',
      App.concept_loop brand ss i acc w =
        (Throw (Some (App.concept_error (reply_message (nth k (image_replies w) (Throw None))))), w') /\
      core (st w') = core (st w) /\ aistudio w' = aistudio w /\
      count_generate (log w') = count_generate (log w) + S k.
Proof.
  induction ss as [|s ss IH]; intros k i acc w Hk Hok Hfail; cbn in Hk; [lia|].
  destruct k as [|k].
  - assert (Hf' : image_ok (next_reply w) = false).
    { unfold next_reply. destruct (image_replies w); exact Hfail. }
    cbn. unfold bind at 1.
    destruct (App_concept_step_fail brand i s w Hf') as (w1 & Hs & Hc & Ha & Hn).
    rewrite Hs. exists w1. split; [|repeat split; auto; lia].
    unfold next_reply. destruct (image_replies w); reflexivity.
  - assert (H0 := Hok 0 ltac:(lia)).
    destruct (image_replies w) as [|r rs] eqn:Hr; [discriminate|].
    destruct r as [resp|m]; [|discriminate].
    destruct (App_concept_step_ok brand i s w resp rs Hr H0)
      as (t & w1 & Hs & Hr1 & Hc1 & Ha1 & _ & Hn1).
    cbn. unfold bind at 1. rewrite Hs.
    assert (Hok1 : forall j, j < k -> image_ok (nth j (image_replies w1) (Throw None)) = true).
    { intros j Hj. rewrite Hr1. exact (Hok (S j) ltac:(lia)). }
    assert (Hfail1 : image_ok (nth k (image_replies w1) (Throw None)) = false).
    { rewrite Hr1. exact Hfail. }
    assert (Hk1 : k < length ss) by lia.
    match goal with
    | |- context [App.concept_loop brand ss (S i) ?a w1] =>
        destruct (IH k (S i) a w1 Hk1 Hok1 Hfail1) as (w' & Hl & Hc & Ha & Hn)
    end.
    rewrite Hr1 in Hl. exists w'. rewrite Hl. repeat split; congruence || lia.
Qed.

(** The first refused reply. *)
Lemma first_refused (l : list (res ImageResponse)) :
  forall j, image_ok (nth j l (Throw None)) = false ->
  exists k, k <= j /\
    (forall j', j' < k -> image_ok (nth j' l (Throw None)) = true) /\
    image_ok (nth k l (Throw None)) = false.
Proof.
  induction l as [|r l IH]; intros j Hj.
  - exists 0. split; [lia|split; [intros; lia|reflexivity]].
  - destruct (image_ok r) eqn:Hr.
    + destruct j as [|j]; [cbn in Hj; congruence|].
      destruct (IH j Hj) as (k & Hk & Hf & Hn).
      exists (S k). split; [lia|split; [|exact Hn]].
      intros [|j'] Hj'; [exact Hr|]. cbn. apply Hf. lia.
    + exists 0. split; [lia|split; [intros; lia|exact Hr]].
Qed.

Lemma App_key_gate w :
  exists w1,
    App.key_gate w = (Ok (gate_passes w), w1) /\
    image_replies w1 = image_replies w /\
    log w1 = (log w ++ gate_events w)%list /\
    core (st w1) = core (st w).
Proof.
  unfold App.key_gate, gate_passes, gate_events, hasSelectedApiKey,
    App.handleOpenKeySelector, openSelectKey, setHasKey.
  world_simpl.
  destruct (aistudio w) as [h|] eqn:Ha; cbn; repeat (rewrite Ha; cbn).
  - destruct (has_selected h); cbn; repeat (rewrite Ha; cbn).
    + eexists. repeat split; reflexivity.
    + destruct (select_key h); cbn; repeat (rewrite Ha; cbn);
        eexists; repeat split; rewrite <- ?app_assoc; reflexivity.
  - eexists. repeat split. rewrite app_nil_r. reflexivity.
Qed.

(** A run of [App.handleGenerate] past its gate whose [k]-th image request is
    the first refused. *)
Lemma App_handleGenerate_fail w k :
  gate_passes w = true ->
  k < 3 ->
  (forall j, j < k -> image_ok (nth j (image_replies w) (Throw None)) = true) ->
  image_ok (nth k (image_replies w) (Throw None)) = false ->
  exists w',
    App.handleGenerate w = (Ok tt, w') /\
    step (st w') = WIZARD /\
    concepts (st w') = concepts (st w) /\
    errorMsg (st w') =
      Some (App.classify (Some (App.concept_error (reply_message (nth k (image_replies w) (Throw None)))))) /\
    count_generate (log w') = count_generate (log w) + count_generate (gate_events w) + S k.
Proof.
  intros Hg Hk Hok Hfail.
  unfold App.handleGenerate, App.generateLogoConcepts.
  unfold bind at 1 2 3, get_st, setErrorMsg, modify, with_st.
  cbn -[App.key_gate App.concept_loop].
  match goal with |- context [App.key_gate ?w0] =>
    destruct (App_key_gate w0) as (w1 & Hg1 & Hr1 & Hl1 & Hc1);
    assert (E : gate_passes w0 = true) by exact Hg;
    change (gate_events w0) with (gate_events w) in Hl1;
    change (log w0) with (log w) in Hl1
  end.
  rewrite Hg1, E.
  unfold App.generate_phase, App.generateLogoConcepts, try_catch, bind, setConcepts, setStep, setLoadingMsg, modify, with_st.
  cbn -[App.concept_loop].
  match goal with |- context [App.concept_loop ?b ?ss ?i ?a ?w2] =>
    assert (R : image_replies w2 = image_replies w) by (cbn; exact Hr1);
    assert (Hok2 : forall j, j < k -> image_ok (nth j (image_replies w2) (Throw None)) = true)
      by (rewrite R; exact Hok);
    assert (Hfail2 : image_ok (nth k (image_replies w2) (Throw None)) = false)
      by (rewrite R; exact Hfail);
    destruct (App_loop_fail_at b ss k i a w2 ltac:(cbn; lia) Hok2 Hfail2)
      as (w' & Hl & Hc & _ & Hn);
    rewrite Hl; rewrite R in Hl
  end.
  cbn. eexists. split; [reflexivity|]. cbn.
  unfold core in Hc, Hc1. cbn in Hc, Hc1.
  injection Hc as _ _ _ Hcs _ _. injection Hc1 as _ _ _ Hcs1 _ _.
  rewrite ?Hr1.
  repeat split; try reflexivity; try congruence.
  fold (count_generate (log w')). cbn [log] in Hn. rewrite Hn, Hl1, count_generate_app. lia.
Qed.

Lemma append_nonempty (s1 s2 : string) : s2 <> "" -> (s1 ++ s2)%string <> "".
Proof. destruct s1; cbn; [auto|discriminate]. Qed.

Lemma last_char_app (s1 s2 : string) :
  s2 <> "" -> last_char (s1 ++ s2) = last_char s2.
Proof.
  intros H. induction s1 as [|c s1 IH]; [reflexivity|].
  change (String c s1 ++ s2)%string with (String c (s1 ++ s2)).
  cbn [last_char]. destruct (s1 ++ s2)%string eqn:E.
  - exfalso. exact (append_nonempty s1 s2 H E).
  - exact IH.
Qed.

Lemma digits_aux_nonempty fuel :
  forall n acc, fuel <> 0 \/ acc <> "" -> digits_aux fuel n acc <> "".
Proof.
  induction fuel as [|f IH]; intros n acc H; cbn [digits_aux]; cbv zeta.
  - destruct H; [contradiction|assumption].
  - destruct (Nat.ltb n 10); [discriminate|]. apply IH. right. discriminate.
Qed.

Lemma last_char_concept_id t j :
  last_char ("concept-" ++ show_nat t ++ "-" ++ show_nat j) = last_char (show_nat j).
Proof.
  assert (Hj : show_nat j <> "").
  { unfold show_nat. apply digits_aux_nonempty. left. discriminate. }
  rewrite (last_char_app "concept-"), (last_char_app (show_nat t)), (last_char_app "-");
    try reflexivity; try exact Hj; apply append_nonempty; try exact Hj;
    apply append_nonempty; exact Hj.
Qed.

(** On the path of [src/App.tsx]: a successful [generateLogoConcepts] gives
    three concepts, with distinct ids and non-empty images. *)
Lemma App_generateLogoConcepts_ok brand w l w' :
  App.generateLogoConcepts brand w = (Ok l, w') ->
  length l = 3 /\ NoDup (map id l) /\ Forall (fun c => imageUrl c <> "") l /\
  core (st w') = core (st w).
Proof.
  intros H. destruct (App_loop_ok brand App.styles 0 [] w l w' H) as (l' & -> & Hf & Hc).
  cbn in Hf |- *.
  inversion Hf as [|c0 j0 l1 r1 H0 Hf1]; subst.
  inversion Hf1 as [|c1 j1 l2 r2 H1 Hf2]; subst.
  inversion Hf2 as [|c2 j2 l3 r3 H2 Hf3]; subst.
  inversion Hf3; subst.
  destruct H0 as ((t0 & I0) & U0), H1 as ((t1 & I1) & U1), H2 as ((t2 & I2) & U2).
  assert (L0 := last_char_concept_id t0 0). assert (L1 := last_char_concept_id t1 1).
  assert (L2 := last_char_concept_id t2 2).
  rewrite <- I0 in L0. rewrite <- I1 in L1. rewrite <- I2 in L2.
  split; [reflexivity|]. split; [|split; [repeat constructor; assumption|exact Hc]].
  cbn in L0, L1, L2. cbn.
  apply NoDup_cons; [|apply NoDup_cons; [|apply NoDup_cons; [|apply NoDup_nil]]];
    cbn; intros Hin; repeat destruct Hin as [Hin|Hin]; try contradiction;
    apply (f_equal last_char) in Hin; congruence.
Qed.

(* ------------------------------------------------------------------ *)
(** ** What a handler may append to the log *)

Section Emits.
Variable P : Event -> bool.

Lemma emits_ret {A} (a : A) : emits P (ret a).
Proof. intros w. exists []. rewrite app_nil_r. split; reflexivity. Qed.

Lemma emits_throw {A} m : emits P (@throw A m).
Proof. intros w. exists []. rewrite app_nil_r. split; reflexivity. Qed.

Lemma emits_modify f : emits P (modify f).
Proof. intros w. exists []. rewrite app_nil_r. split; reflexivity. Qed.

Lemma emits_emit e : P e = true -> emits P (emit e).
Proof. intros He w. exists [e]. cbn. rewrite He. split; reflexivity. Qed.

Lemma emits_bind {A B} (m : M A) (k : A -> M B) :
  emits P m -> (forall a, emits P (k a)) -> emits P (bind m k).
Proof.
  intros Hm Hk w. unfold bind. destruct (Hm w) as (r1 & E1 & F1).
  destruct (m w) as [[a|e] w1]; cbn in E1.
  - destruct (Hk a w1) as (r2 & E2 & F2). exists (r1 ++ r2)%list.
    rewrite E2, E1, <- app_assoc, forallb_app, F1, F2. split; reflexivity.
  - exists r1. cbn. split; assumption.
Qed.

Lemma emits_try_catch {A} (m : M A) h :
  emits P m -> (forall e, emits P (h e)) -> emits P (try_catch m h).
Proof.
  intros Hm Hh w. unfold try_catch. destruct (Hm w) as (r1 & E1 & F1).
  destruct (m w) as [[a|e] w1]; cbn in E1.
  - exists r1. cbn. split; assumption.
  - destruct (Hh e w1) as (r2 & E2 & F2). exists (r1 ++ r2)%list.
    rewrite E2, E1, <- app_assoc, forallb_app, F1, F2. split; reflexivity.
Qed.

Lemma emits_reader {A} (f : World -> A) : emits P (fun w => (Ok (f w), w)).
Proof. intros w. exists []. rewrite app_nil_r. split; reflexivity. Qed.

Lemma emits_Date_now : emits P Date_now.
Proof.
  intros w. exists []. rewrite app_nil_r. unfold Date_now.
  destruct (clock w); split; reflexivity.
Qed.

Lemma emits_send_image k mdl p :
  P (EvGenerate mdl k p) = true -> emits P (send_image k mdl p).
Proof.
  intros He. unfold send_image. apply emits_bind; [apply emits_emit; exact He|].
  intros _ w. exists []. rewrite app_nil_r. destruct (image_replies w); split; reflexivity.
Qed.

Lemma emits_generateImage k mdl p :
  P (EvGenerate mdl k p) = true -> emits P (generateImage k mdl p).
Proof.
  intros He. unfold generateImage. apply emits_bind; [apply emits_send_image; exact He|].
  intros [r|m]; [apply emits_ret|apply emits_throw].
Qed.

Lemma emits_generateText k mdl p :
  P (EvGenerate mdl k p) = true -> emits P (generateText k mdl p).
Proof.
  intros He. unfold generateText. apply emits_bind; [apply emits_emit; exact He|].
  intros _ w. exists []. rewrite app_nil_r. destruct (text_replies w) as [|[]]; split; reflexivity.
Qed.

Lemma emits_JSON_parse_m t : emits P (JSON_parse_m t).
Proof. unfold JSON_parse_m. destruct (JSON_parse t); [apply emits_ret|apply emits_throw]. Qed.

End Emits.

Create HintDb emits.
#[export] Hint Resolve emits_ret emits_throw emits_modify emits_Date_now emits_JSON_parse_m : emits.

(** Decomposes a handler into the combinators above. *)
Ltac emits_tac :=
  repeat match goal with
  | |- emits _ (bind _ _) => apply emits_bind; [|intro]
  | |- emits _ (try_catch _ _) => apply emits_try_catch; [|intro]
  | |- emits _ (if ?b then _ else _) => destruct b
  | |- emits _ (match ?x with _ => _ end) => destruct x
  | |- emits _ (modify _) => apply emits_modify
  | |- emits _ get_st => apply emits_reader
  | |- emits _ get_aistudio => apply emits_reader
  | |- emits _ read_API_KEY => apply emits_reader
  | |- emits _ (setStep _) => apply emits_modify
  | |- emits _ (setHasKey _) => apply emits_modify
  | |- emits _ (setErrorMsg _) => apply emits_modify
  | |- emits _ (setBrandInfo _) => apply emits_modify
  | |- emits _ (setConcepts _) => apply emits_modify
  | |- emits _ (setSelectedConcept _) => apply emits_modify
  | |- emits _ (setStyleGuide _) => apply emits_modify
  | |- emits _ (setLoadingMsg _) => apply emits_modify
  | |- emits _ (emit _) => apply emits_emit; reflexivity
  | |- emits _ (alert _) => apply emits_emit; reflexivity
  | |- emits _ (generateImage _ _ _) => apply emits_generateImage; reflexivity
  | |- emits _ (send_image _ _ _) => apply emits_send_image; reflexivity
  | |- emits _ (generateText _ _ _) => apply emits_generateText; reflexivity
  | |- emits _ _ => solve [auto with emits]
  end.

Lemma App_concept_step_emits brand i s : emits is_generate (App.concept_step brand i s).
Proof. unfold App.concept_step. emits_tac. Qed.

Lemma App_concept_loop_emits brand ss : forall i acc,
  emits is_generate (App.concept_loop brand ss i acc).
Proof.
  induction ss as [|s ss IH]; intros i acc; cbn.
  - apply emits_ret.
  - apply emits_bind; [apply App_concept_step_emits|intros c; apply IH].
Qed.

#[export] Hint Resolve App_concept_loop_emits : emits.

Lemma App_generate_phase_emits brand : emits is_generate (App.generate_phase brand).
Proof.
  unfold App.generate_phase, App.generateLogoConcepts. emits_tac.
Qed.

Lemma App_handleGenerate_unfold w :
  App.handleGenerate w =
  (go <- App.key_gate;; if negb go then ret tt else App.generate_phase (brandInfo (st w)))
    (snd (setErrorMsg None w)).
Proof. reflexivity. Qed.

(** The log of [App.handleGenerate]: the effects of its gate, then
    generation requests only, and none of them when the gate stops it. *)
Lemma App_handleGenerate_log w :
  exists rest,
    log (snd (App.handleGenerate w)) = (log w ++ gate_events w ++ rest)%list /\
    forallb is_generate rest = true /\
    (gate_passes w = false ->
       rest = [] /\ step (st (snd (App.handleGenerate w))) = step (st w)).
Proof.
  rewrite App_handleGenerate_unfold. unfold bind. cbv beta.
  set (w0 := snd (setErrorMsg None w)).
  destruct (App_key_gate w0) as (w1 & Hg1 & Hr1 & Hl1 & Hc1).
  change (gate_events w0) with (gate_events w) in Hl1;
  change (log w0) with (log w) in Hl1;
  change (gate_passes w0) with (gate_passes w) in Hg1;
  change (step (st w0)) with (step (st w)) in Hc1.
  rewrite Hg1. destruct (gate_passes w) eqn:Hp; cbn -[App.generate_phase].
  - destruct (App_generate_phase_emits (brandInfo (st w)) w1) as (r & Hr & Hf).
    exists r. rewrite Hr, Hl1, <- app_assoc. split; [reflexivity|].
    split; [exact Hf|discriminate].
  - exists []. rewrite app_nil_r. split; [exact Hl1|]. split; [reflexivity|].
    intros _. split; [reflexivity|]. unfold core in Hc1. injection Hc1 as Hs _ _ _ _ _. exact Hs.
Qed.

Lemma App_handleSelectLogo_emits c :
  emits (fun e => negb (is_credential e)) (App.handleSelectLogo c).
Proof. unfold App.handleSelectLogo. emits_tac. Qed.

(* ------------------------------------------------------------------ *)
(** ** What a handler leaves unchanged in the state *)

Section Keeps.
Context {X : Type} (f : AppState -> X).

Lemma keeps_ret {A} (a : A) : keeps f (ret a).
Proof. intros w. reflexivity. Qed.

Lemma keeps_throw {A} m : keeps f (@throw A m).
Proof. intros w. reflexivity. Qed.

Lemma keeps_modify g : (forall s, f (g s) = f s) -> keeps f (modify g).
Proof. intros H w. apply H. Qed.

Lemma keeps_emit e : keeps f (emit e).
Proof. intros w. reflexivity. Qed.

Lemma keeps_reader {A} (r : World -> A) : keeps f (fun w => (Ok (r w), w)).
Proof. intros w. reflexivity. Qed.

Lemma keeps_bind {A B} (m : M A) (k : A -> M B) :
  keeps f m -> (forall a, keeps f (k a)) -> keeps f (bind m k).
Proof.
  intros Hm Hk w. unfold bind. rewrite <- (Hm w).
  destruct (m w) as [[a|e] w1]; [apply Hk|reflexivity].
Qed.

Lemma keeps_try_catch {A} (m : M A) h :
  keeps f m -> (forall e, keeps f (h e)) -> keeps f (try_catch m h).
Proof.
  intros Hm Hh w. unfold try_catch. rewrite <- (Hm w).
  destruct (m w) as [[a|e] w1]; [reflexivity|apply Hh].
Qed.

Lemma keeps_Date_now : keeps f Date_now.
Proof. intros w. unfold Date_now. destruct (clock w); reflexivity. Qed.

Lemma keeps_send_image k mdl p : keeps f (send_image k mdl p).
Proof.
  unfold send_image. apply keeps_bind; [apply keeps_emit|].
  intros _ w. destruct (image_replies w); reflexivity.
Qed.

Lemma keeps_generateImage k mdl p : keeps f (generateImage k mdl p).
Proof.
  unfold generateImage. apply keeps_bind; [apply keeps_send_image|].
  intros [r|m]; [apply keeps_ret|apply keeps_throw].
Qed.

Lemma keeps_generateText k mdl p : keeps f (generateText k mdl p).
Proof.
  unfold generateText. apply keeps_bind; [apply keeps_emit|].
  intros _ w. destruct (text_replies w) as [|[]]; reflexivity.
Qed.

Lemma keeps_JSON_parse_m t : keeps f (JSON_parse_m t).
Proof. unfold JSON_parse_m. destruct (JSON_parse t); [apply keeps_ret|apply keeps_throw]. Qed.

Lemma keeps_openSelectKey : keeps f openSelectKey.
Proof.
  unfold openSelectKey. apply keeps_bind; [apply keeps_emit|].
  intros _ w. destruct (aistudio w) as [h|]; [destruct (select_key h)|]; reflexivity.
Qed.

End Keeps.

Create HintDb keeps.
#[export] Hint Resolve keeps_ret keeps_throw keeps_emit keeps_Date_now keeps_send_image
  keeps_generateImage keeps_generateText keeps_JSON_parse_m keeps_openSelectKey : keeps.

(** Decomposes a handler; a setter is discharged when it does not touch the
    observed field. *)
Ltac keeps_tac :=
  repeat match goal with
  | |- keeps _ (bind _ _) => apply keeps_bind; [|intro]
  | |- keeps _ (try_catch _ _) => apply keeps_try_catch; [|intro]
  | |- keeps _ (if ?b then _ else _) => destruct b
  | |- keeps _ (match ?x with _ => _ end) => destruct x
  | |- keeps _ get_st => apply keeps_reader
  | |- keeps _ get_aistudio => apply keeps_reader
  | |- keeps _ read_API_KEY => apply keeps_reader
  | |- keeps _ (alert _) => apply keeps_emit
  | |- keeps _ (modify _) => apply keeps_modify; intros ?; reflexivity
  | |- keeps _ (setStep _) => apply keeps_modify; intros ?; reflexivity
  | |- keeps _ (setHasKey _) => apply keeps_modify; intros ?; reflexivity
  | |- keeps _ (setErrorMsg _) => apply keeps_modify; intros ?; reflexivity
  | |- keeps _ (setBrandInfo _) => apply keeps_modify; intros ?; reflexivity
  | |- keeps _ (setConcepts _) => apply keeps_modify; intros ?; reflexivity
  | |- keeps _ (setSelectedConcept _) => apply keeps_modify; intros ?; reflexivity
  | |- keeps _ (setStyleGuide _) => apply keeps_modify; intros ?; reflexivity
  | |- keeps _ (setLoadingMsg _) => apply keeps_modify; intros ?; reflexivity
  | |- keeps _ _ => solve [auto with keeps]
  end.

Lemma App_concept_loop_keeps brand ss : forall i acc,
  keeps core (App.concept_loop brand ss i acc).
Proof.
  induction ss as [|s ss IH]; intros i acc; cbn.
  - apply keeps_ret.
  - apply keeps_bind; [|intros c; apply IH].
    unfold App.concept_step. keeps_tac.
Qed.

Lemma App_concept_loop_keeps_hasKey brand ss : forall i acc,
  keeps hasKey (App.concept_loop brand ss i acc).
Proof.
  induction ss as [|s ss IH]; intros i acc; cbn.
  - apply keeps_ret.
  - apply keeps_bind; [|intros c; apply IH].
    unfold App.concept_step. keeps_tac.
Qed.

Lemma App_key_gate_keeps_core : keeps core App.key_gate.
Proof.
  unfold App.key_gate, hasSelectedApiKey, App.handleOpenKeySelector. keeps_tac.
Qed.

Lemma App_handleGenerate_keeps_selected : keeps selectedConcept App.handleGenerate.
Proof.
  unfold App.handleGenerate, App.key_gate, hasSelectedApiKey, App.handleOpenKeySelector,
    App.generate_phase, App.generateLogoConcepts.
  keeps_tac.
  intros w. exact (f_equal (fun x => snd (fst x)) (App_concept_loop_keeps _ _ _ _ w)).
Qed.

Lemma App_handleGenerate_keeps_guide : keeps styleGuide App.handleGenerate.
Proof.
  unfold App.handleGenerate, App.key_gate, hasSelectedApiKey, App.handleOpenKeySelector,
    App.generate_phase, App.generateLogoConcepts.
  keeps_tac.
  intros w. exact (f_equal (fun x => snd x) (App_concept_loop_keeps _ _ _ _ w)).
Qed.

Lemma App_generateLogoConcepts_length brand w l w' :
  App.generateLogoConcepts brand w = (Ok l, w') -> length l = 3.
Proof.
  intros H. destruct (App_loop_ok brand App.styles 0 [] w l w' H) as (l' & -> & Hf & _).
  apply Forall2_length in Hf. exact Hf.
Qed.

(** After [App.handleGenerate] the concepts are the old ones or a batch of three. *)
Lemma App_handleGenerate_concepts w :
  concepts (st (snd (App.handleGenerate w))) = concepts (st w) \/
  length (concepts (st (snd (App.handleGenerate w)))) = 3.
Proof.
  remember (snd (App.handleGenerate w)) as x eqn:Ex.
  rewrite App_handleGenerate_unfold in Ex. unfold bind at 1 in Ex. cbv beta in Ex.
  set (w0 := snd (setErrorMsg None w)) in Ex.
  destruct (App_key_gate w0) as (w1 & Hg1 & _ & _ & Hc1). rewrite Hg1 in Ex.
  unfold core in Hc1. injection Hc1 as _ _ _ Hc1 _ _.
  change (concepts (st w0)) with (concepts (st w)) in Hc1.
  destruct (gate_passes w0); cbn -[App.generate_phase] in Ex; [|subst x; left; exact Hc1].
  unfold App.generate_phase, bind, try_catch, setStep, setLoadingMsg, setConcepts,
    setErrorMsg, modify, with_st in Ex.
  cbn -[App.generateLogoConcepts] in Ex.
  match type of Ex with context [App.generateLogoConcepts ?b ?w2] =>
    destruct (App.generateLogoConcepts b w2) as [[l|m] w3] eqn:E
  end; cbn in Ex; subst x; cbn.
  - right. exact (App_generateLogoConcepts_length _ _ _ _ E).
  - left. unfold App.generateLogoConcepts in E.
    match type of E with App.concept_loop ?b ?ss ?i ?a ?w2 = _ =>
      assert (K := App_concept_loop_keeps b ss i a w2) end.
    rewrite E in K. unfold core in K. cbn in K. injection K as _ _ _ K _ _.
    rewrite K. exact Hc1.
Qed.

Lemma App_handleSelectLogo_keeps_concepts c : keeps concepts (App.handleSelectLogo c).
Proof. unfold App.handleSelectLogo. keeps_tac. Qed.

Lemma App_handleSelectLogo_selected c w :
  selectedConcept (st (snd (App.handleSelectLogo c w))) = Some c.
Proof.
  unfold App.handleSelectLogo. unfold bind at 1 2.
  cbv beta iota delta [get_st setSelectedConcept modify with_st].
  match goal with |- selectedConcept (st (snd (?m ?w1))) = _ =>
    assert (K : keeps selectedConcept m) by keeps_tac; rewrite (K w1)
  end.
  reflexivity.
Qed.

#[export] Hint Resolve App_handleGenerate_keeps_selected App_handleGenerate_keeps_guide
  App_handleSelectLogo_keeps_concepts : keeps.

(* ------------------------------------------------------------------ *)
(** ** The invariant of the reachable states of [App] *)

Lemma inv_step s s' :
  inv s ->
  (selectedConcept s' = selectedConcept s \/ selectedConcept s' <> None) ->
  (styleGuide s' = styleGuide s \/ selectedConcept s' <> None) ->
  (concepts s' = concepts s \/ length (concepts s') = 3) ->
  inv s'.
Proof.
  intros [H1 H2] S G C. split.
  - intros Hg. destruct G as [G|G]; [|exact G]. destruct S as [S|S]; [|exact S].
    rewrite S. apply H1. rewrite <- G. exact Hg.
  - destruct C as [C|C]; [rewrite C; exact H2|right; exact C].
Qed.

Lemma on_step_cases a m w :
  snd (App.on_step a m w) = w \/ snd (App.on_step a m w) = snd (m w).
Proof. unfold App.on_step, bind, get_st. cbn. destruct (AppStep_eqb (step (st w)) a); auto. Qed.

Lemma on_card_cases c m w :
  snd (App.on_card c m w) = w \/ snd (App.on_card c m w) = snd (m w).
Proof. unfold App.on_card, bind, get_st. cbn. destruct (existsb _ _); auto. Qed.

Lemma App_dispatch_inv e w : inv (st w) -> inv (st (snd (App.dispatch e w))).
Proof.
  intros H. destruct e as [| | | | |b| |c|].
  all: try (apply (inv_step (st w)); [exact H|left|left|left];
    match goal with |- ?f (st (snd (?m ?w0))) = _ =>
      assert (K : keeps f m)
        by (unfold App.dispatch, App.on_step, App.handleOpenKeySelector; cbv beta iota; keeps_tac);
      exact (K w0)
    end; fail).
  - cbn [App.dispatch].
    match goal with |- inv (st (snd (App.on_step _ ?m _))) =>
      destruct (on_step_cases WIZARD m w) as [E|E] end; rewrite E; [exact H|].
    unfold bind, get_st. cbv beta iota.
    destruct (App.form_valid (brandInfo (st w))); [|exact H].
    apply (inv_step (st w)); [exact H|left|left|apply App_handleGenerate_concepts].
    + apply App_handleGenerate_keeps_selected.
    + apply App_handleGenerate_keeps_guide.
  - cbn [App.dispatch].
    destruct (on_step_cases GALLERY (App.on_card c (App.handleSelectLogo c)) w) as [E|E];
      rewrite E; [exact H|].
    destruct (on_card_cases c (App.handleSelectLogo c) w) as [E'|E']; rewrite E'; [exact H|].
    apply (inv_step (st w)); [exact H|right|right|left];
      try (rewrite App_handleSelectLogo_selected; discriminate).
    apply App_handleSelectLogo_keeps_concepts.
Qed.

Lemma App_run_inv es : forall w, inv (st w) -> inv (st (App.run es w)).
Proof.
  induction es as [|e es IH]; intros w H; [exact H|].
  cbn [App.run]. destruct (App.render_crashes _).
  - apply App_dispatch_inv. exact H.
  - apply IH. apply App_dispatch_inv. exact H.
Qed.

(* ------------------------------------------------------------------ *)
(** ** Lemmas on the loop of [AppV1.generateLogoConcepts] *)

Lemma AppV1_concept_step_ok brand i s w resp rs :
  image_replies w = Ok resp :: rs ->
  image_ok (Ok resp) = true ->
  exists c w1,
    AppV1.concept_step brand i s w = (Ok c, w1) /\
    image_replies w1 = rs /\ core (st w1) = core (st w) /\
    aistudio w1 = aistudio w /\
    count_generate (log w1) = S (count_generate (log w)).
Proof.
  intros Hr Hok. unfold image_ok in Hok.
  unfold AppV1.concept_step, generateImage, send_image, setLoadingMsg. world_simpl.
  rewrite Hr. cbn.
  destruct (String.eqb (image_url_of (first_parts resp)) "") eqn:E; [discriminate|].
  do 2 eexists. split; [reflexivity|]. cbn.
  repeat split; try reflexivity; unfold count_generate in *; cbn [log];
    rewrite ?filter_app, ?length_app; cbn; lia.
Qed.

Lemma AppV1_concept_step_throw brand i s w m :
  next_reply w = Throw m ->
  exists w1,
    AppV1.concept_step brand i s w = (Throw (AppV1.concept_error m), w1) /\
    core (st w1) = core (st w) /\
    aistudio w1 = aistudio w /\
    count_generate (log w1) = S (count_generate (log w)).
Proof.
  unfold next_reply. intros Hm.
  unfold AppV1.concept_step, generateImage, send_image, setLoadingMsg. world_simpl.
  destruct (image_replies w) as [|[resp|m'] rs]; cbn in *; try discriminate;
    injection Hm as <-; eexists; (split; [reflexivity|]);
    repeat split; try reflexivity; unfold count_generate in *; cbn [log];
      rewrite ?filter_app, ?length_app; cbn; lia.
Qed.

Lemma AppV1_loop_throw_at brand ss :
  forall k i acc w m,
    k < length ss ->
    (forall j, j < k -> image_ok (nth j (image_replies w) (Throw None)) = true) ->
    nth k (image_replies w) (Throw None) = Throw m ->
    exists w',
      AppV1.concept_loop brand ss i acc w = (Throw (AppV1.concept_error m), w') /\
      core (st w') = core (st w) /\ aistudio w' = aistudio w /\
      count_generate (log w') = count_generate (log w) + S k.
Proof.
  induction ss as [|s ss IH]; intros k i acc w m Hk Hok Hm; cbn in Hk; [lia|].
  destruct k as [|k].
  - assert (Hm' : next_reply w = Throw m).
    { unfold next_reply. destruct (image_replies w); exact Hm. }
    cbn. unfold bind at 1.
    destruct (AppV1_concept_step_throw brand i s w m Hm') as (w1 & Hs & Hc & Ha & Hn).
    rewrite Hs. exists w1. split; [reflexivity|repeat split; auto; lia].
  - assert (H0 := Hok 0 ltac:(lia)).
    destruct (image_replies w) as [|r rs] eqn:Hr; [discriminate|].
    destruct r as [resp|m']; [|discriminate].
    destruct (AppV1_concept_step_ok brand i s w resp rs Hr H0)
      as (c & w1 & Hs & Hr1 & Hc1 & Ha1 & Hn1).
    cbn. unfold bind at 1. rewrite Hs.
    assert (Hok1 : forall j, j < k -> image_ok (nth j (image_replies w1) (Throw None)) = true).
    { intros j Hj. rewrite Hr1. exact (Hok (S j) ltac:(lia)). }
    assert (Hm1 : nth k (image_replies w1) (Throw None) = Throw m).
    { rewrite Hr1. exact Hm. }
    assert (Hk1 : k < length ss) by lia.
    match goal with
    | |- context [AppV1.concept_loop brand ss (S i) ?a w1] =>
        destruct (IH k (S i) a w1 m Hk1 Hok1 Hm1) as (w' & Hl & Hc & Ha & Hn)
    end.
    exists w'. rewrite Hl. repeat split; congruence || lia.
Qed.

Lemma AppV1_handleGenerate_unfold w :
  AppV1.handleGenerate w =
  (go <- App.key_gate;; if negb go then ret tt else AppV1.generate_phase (brandInfo (st w)))
    (snd (setErrorMsg None w)).
Proof. reflexivity. Qed.

(** A run of [AppV1.handleGenerate] past its gate whose [k]-th request is
    the first refused, with a not-found error. *)
Lemma AppV1_handleGenerate_not_found w k m :
  gate_passes w = true ->
  k < 3 ->
  (forall j, j < k -> image_ok (nth j (image_replies w) (Throw None)) = true) ->
  nth k (image_replies w) (Throw None) = Throw (Some m) ->
  (includes m "404" || includes m "not found") = true ->
  step (st (snd (AppV1.handleGenerate w))) = WIZARD /\
  errorMsg (st (snd (AppV1.handleGenerate w))) = Some AppV1.key_issue_msg /\
  count_generate (log (snd (AppV1.handleGenerate w))) =
    count_generate (log w) + count_generate (gate_events w) + S k.
Proof.
  intros Hg Hk Hok Hm Hinc.
  remember (snd (AppV1.handleGenerate w)) as x eqn:Ex.
  rewrite AppV1_handleGenerate_unfold in Ex. unfold bind at 1 in Ex. cbv beta in Ex.
  set (w0 := snd (setErrorMsg None w)) in Ex.
  destruct (App_key_gate w0) as (w1 & Hg1 & Hr1 & Hl1 & _).
  change (gate_events w0) with (gate_events w) in Hl1;
  change (log w0) with (log w) in Hl1;
  change (gate_passes w0) with (gate_passes w) in Hg1.
  rewrite Hg1, Hg in Ex. cbn -[AppV1.generate_phase] in Ex.
  unfold AppV1.generate_phase, AppV1.generateLogoConcepts, bind, try_catch, setStep,
    setLoadingMsg, setConcepts, setErrorMsg, modify, with_st in Ex.
  cbn -[AppV1.concept_loop] in Ex.
  assert (Ce : AppV1.concept_error (Some m) = Some "MODEL_NOT_FOUND").
  { unfold AppV1.concept_error, msg_includes. rewrite Hinc. reflexivity. }
  match type of Ex with context [AppV1.concept_loop ?b ?ss ?i ?a ?w2] =>
    assert (R : image_replies w2 = image_replies w) by (cbn; exact Hr1);
    assert (Hok2 : forall j, j < k -> image_ok (nth j (image_replies w2) (Throw None)) = true)
      by (rewrite R; exact Hok);
    assert (Hm2 : nth k (image_replies w2) (Throw None) = Throw (Some m))
      by (rewrite R; exact Hm);
    destruct (AppV1_loop_throw_at b ss k i a w2 (Some m) ltac:(cbn; lia) Hok2 Hm2)
      as (w' & Hl & _ & _ & Hn);
    rewrite Hl, Ce in Ex
  end.
  cbn in Ex. cbn [log] in Hn.
  destruct (aistudio w') as [h|]; cbn in Ex.
  - unfold openSelectKey, bind, emit in Ex. cbn in Ex.
    destruct (select_key h); cbn in Ex; subst x; cbn; (split; [reflexivity|split; [reflexivity|]]);
      change (Datatypes.length (filter is_generate ?l)) with (count_generate l);
      rewrite count_generate_app, Hn, Hl1, count_generate_app; cbn; lia.
  - subst x; cbn. split; [reflexivity|split; [reflexivity|]].
    fold (count_generate (log w')). rewrite Hn, Hl1, count_generate_app. lia.
Qed.

(* ------------------------------------------------------------------ *)
(** ** Lemmas on [GeminiService] *)

(** A batch with a rejected request among the three is rejected. *)
Lemma Gemini_batch_rejected svc brand w j m :
  j < 3 -> nth j (image_replies w) (Throw None) = Throw m ->
  exists m' w', GeminiService.generateLogoConcepts svc brand w = (Throw m', w') /\ st w' = st w.
Proof.
  intros Hj Hm.
  unfold GeminiService.generateLogoConcepts, GeminiService.send_all, send_image, emit, bind,
    ret, throw.
  cbn.
  destruct (image_replies w) as [|r0 [|r1 [|r2 rs]]]; cbn;
    destruct j as [|[|[|j]]]; cbn in Hm; try lia; subst;
    repeat match goal with
    | |- context [match ?r with Ok _ => _ | Throw _ => _ end] => is_var r; destruct r
    end; cbn; eauto.
Qed.

Lemma Gemini_send_all_key svc brand ss : forall i,
  emits (sent_with (GeminiService.ai_apiKey svc)) (GeminiService.send_all svc brand ss i).
Proof.
  induction ss as [|s ss IH]; intros i; cbn.
  - apply emits_ret.
  - apply emits_bind; [apply emits_send_image; cbn; apply String.eqb_refl|].
    intros r. apply emits_bind; [apply IH|intros rs; apply emits_ret].
Qed.

(* ------------------------------------------------------------------ *)
(** ** The image a response yields *)

Lemma image_url_of_last_inline parts : image_url_of parts = inline_url (last_inline parts).
Proof.
  unfold image_url_of, last_inline.
  enough (G : forall acc,
    fold_left (fun url part =>
                 match inlineData part with
                 | Some b => "data:image/png;base64," ++ show_data (data b)
                 | None => url
                 end) parts (inline_url acc) =
    inline_url (fold_left (fun acc p => match inlineData p with Some b => Some b | None => acc end)
                  parts acc)) by exact (G None).
  induction parts as [|p ps IH]; intros acc; [reflexivity|].
  cbn. destruct (inlineData p) as [b|]; [|apply IH].
  exact (IH (Some b)).
Qed.

(* ------------------------------------------------------------------ *)
(** * The claims *)

(** C1 (the path of [GeminiService]): a valid brief whose three image
    replies carry text only is a successful batch there: the gallery is
    shown with three concepts whose images are all empty. *)
Lemma C1_gemini_batch_without_images :
  let w := snd (AppGemini.handleGenerate (GeminiService.load (Some "key-1"))
                  (demo_world (demo_state WIZARD []) None
                     [Ok text_response; Ok text_response; Ok text_response] [])) in
  step (st w) = GALLERY /\ length (concepts (st w)) = 3 /\
  map imageUrl (concepts (st w)) = [""; ""; ""].
Proof. vm_compute. split; [reflexivity|split; reflexivity]. Qed.

(** C2: if one of the three image requests of a batch fails, no concept of
    the batch reaches the state and the stage is back to WIZARD. In
    [App.tsx] (past its credential gate) a failure is any reply without an
    image, and the error is recorded in [errorMsg]; in the component of
    [GeminiService] a failure is a rejected request, and an alert is shown. *)
Theorem C2_batch_all_or_nothing (svc : GeminiService.Service) w j :
  j < 3 ->
  image_ok (nth j (image_replies w) (Throw None)) = false ->
  (gate_passes w = true ->
     step (st (snd (App.handleGenerate w))) = WIZARD /\
     concepts (st (snd (App.handleGenerate w))) = concepts (st w) /\
     errorMsg (st (snd (App.handleGenerate w))) <> None) /\
  (forall m, nth j (image_replies w) (Throw None) = Throw m ->
     step (st (snd (AppGemini.handleGenerate svc w))) = WIZARD /\
     concepts (st (snd (AppGemini.handleGenerate svc w))) = concepts (st w) /\
     exists pre, log (snd (AppGemini.handleGenerate svc w)) =
                 (pre ++ [EvAlert "Failed to generate logos. Please try again."])%list).
Proof.
  intros Hj Hfail. split.
  - intros Hg.
    destruct (first_refused (image_replies w) j Hfail) as (k & Hk & Hok & Hf).
    destruct (App_handleGenerate_fail w k Hg ltac:(lia) Hok Hf) as (w' & E & S & C & M & _).
    rewrite E. cbn [snd]. split; [exact S|split; [exact C|rewrite M; discriminate]].
  - intros m Hm.
    remember (snd (AppGemini.handleGenerate svc w)) as x eqn:Ex.
    unfold AppGemini.handleGenerate, bind, try_catch, get_st, setStep, setLoadingMsg,
      setConcepts, modify, with_st, alert, emit in Ex.
    cbn -[GeminiService.generateLogoConcepts] in Ex.
    match type of Ex with context [GeminiService.generateLogoConcepts ?s ?b ?w2] =>
      destruct (Gemini_batch_rejected s b w2 j m Hj ltac:(cbn; exact Hm)) as (m' & w' & E & S);
      rewrite E in Ex
    end.
    cbn in Ex. subst x. cbn. rewrite S. cbn.
    split; [reflexivity|split; [reflexivity|eexists; reflexivity]].
Qed.

Lemma C2_witness :
  (step (st (snd (App.handleGenerate
      (demo_world (demo_state WIZARD []) None [Ok (png_response "AAA"); Throw (Some "500")] []))))
     = WIZARD /\
   concepts (st (snd (App.handleGenerate
      (demo_world (demo_state WIZARD []) None [Ok (png_response "AAA"); Throw (Some "500")] []))))
     = [] /\
   errorMsg (st (snd (App.handleGenerate
      (demo_world (demo_state WIZARD []) None [Ok (png_response "AAA"); Throw (Some "500")] []))))
     <> None).
Proof.
  apply (proj1 (C2_batch_all_or_nothing (GeminiService.load (Some "key-1"))
    (demo_world (demo_state WIZARD []) None [Ok (png_response "AAA"); Throw (Some "500")] []) 1
    ltac:(lia) ltac:(reflexivity))).
  reflexivity.
Defined.

(** C3, counterexample: in the gallery, with a host that reports no
    selected key (and whose selection would fail), finalizing a concept
    sends its generation request with no credential query before it: the
    only effect in the log is that request. *)
Lemma C3_select_without_credential :
  let w := App.run [App.Finalize demo_concept]
             (demo_world (demo_state GALLERY [demo_concept]) (Some (mkHost false (Throw None)))
                [] [Ok (Some "{}")]) in
  map is_generate (log w) = [true] /\ map is_credential (log w) = [false].
Proof. vm_compute. split; reflexivity. Qed.

(** C3, as the code has it: with a host present, [App.handleGenerate] first
    queries the credential and, when none is selected, runs the selection
    flow; it sends generation requests only after that (none when the
    flow failed). [App.handleSelectLogo] queries and selects no credential
    at all. *)
Theorem C3_credential_order w h c :
  aistudio w = Some h ->
  (exists rest,
     log (snd (App.handleGenerate w)) =
       (log w ++ EvHasSelectedApiKey :: (if has_selected h then [] else [EvOpenSelectKey]) ++ rest)%list /\
     forallb is_generate rest = true /\
     (rest <> [] -> has_selected h = true \/ exists k, select_key h = Ok k)) /\
  (exists rest,
     log (snd (App.handleSelectLogo c w)) = (log w ++ rest)%list /\
     forallb (fun e => negb (is_credential e)) rest = true).
Proof.
  intros Ha. split.
  - destruct (App_handleGenerate_log w) as (rest & L & F & G).
    exists rest. unfold gate_events in L. rewrite Ha in L.
    split; [rewrite L; destruct (has_selected h); reflexivity|split; [exact F|]].
    intros Hne. unfold gate_passes in G. rewrite Ha in G.
    destruct (has_selected h); [left; reflexivity|right].
    destruct (select_key h) as [k|m]; [exists k; reflexivity|].
    exfalso. apply Hne. apply (G eq_refl).
  - apply App_handleSelectLogo_emits.
Qed.

Lemma C3_witness :
  (exists rest,
     log (snd (App.handleGenerate
       (demo_world (demo_state WIZARD []) (Some (mkHost false (Ok "key-2"))) [] []))) =
       ([] ++ EvHasSelectedApiKey :: [EvOpenSelectKey] ++ rest)%list /\
     forallb is_generate rest = true /\
     (rest <> [] -> false = true \/ exists k, Ok "key-2" = @Ok string k)) /\
  (exists rest,
     log (snd (App.handleSelectLogo demo_concept
       (demo_world (demo_state WIZARD []) (Some (mkHost false (Ok "key-2"))) [] []))) =
       ([] ++ rest)%list /\
     forallb (fun e => negb (is_credential e)) rest = true).
Proof.
  exact (C3_credential_order
    (demo_world (demo_state WIZARD []) (Some (mkHost false (Ok "key-2"))) [] [])
    (mkHost false (Ok "key-2")) demo_concept eq_refl).
Defined.

(** C4: when the style guide request of [App.handleSelectLogo] fails (no
    reply, a rejection, or a text that is not JSON), the stage is GALLERY,
    the concepts (with their images), the previous style guide and the
    selected concept are kept, and the last effect is the notice. *)
Theorem C4_select_failure_keeps_gallery c w :
  guide_reply_fails w = true ->
  step (st (snd (App.handleSelectLogo c w))) = GALLERY /\
  concepts (st (snd (App.handleSelectLogo c w))) = concepts (st w) /\
  styleGuide (st (snd (App.handleSelectLogo c w))) = styleGuide (st w) /\
  selectedConcept (st (snd (App.handleSelectLogo c w))) = Some c /\
  exists pre, log (snd (App.handleSelectLogo c w)) = (pre ++ [EvAlert App.guide_notice])%list.
Proof.
  intros H. unfold guide_reply_fails in H.
  remember (snd (App.handleSelectLogo c w)) as x eqn:Ex.
  unfold App.handleSelectLogo, bind, try_catch, get_st, setSelectedConcept, setStep,
    setLoadingMsg, setStyleGuide, modify, with_st, read_API_KEY, generateText, emit, alert,
    JSON_parse_m, ret, throw in Ex.
  cbn -[JSON_parse opt_str_or] in Ex.
  destruct (text_replies w) as [|[t|m] rs]; cbn -[JSON_parse opt_str_or] in Ex;
    [| destruct (JSON_parse (opt_str_or t "{}")); [discriminate|] |];
    cbn in Ex; subst x; cbn;
    (split; [reflexivity|split; [reflexivity|split; [reflexivity|split; [reflexivity|]]]]);
    eexists; reflexivity.
Qed.

Lemma C4_witness :
  step (st (snd (App.handleSelectLogo demo_concept
     (demo_world (demo_state GALLERY [demo_concept]) None [] [Throw (Some "503")])))) = GALLERY /\
  concepts (st (snd (App.handleSelectLogo demo_concept
     (demo_world (demo_state GALLERY [demo_concept]) None [] [Throw (Some "503")])))) =
     [demo_concept] /\
  styleGuide (st (snd (App.handleSelectLogo demo_concept
     (demo_world (demo_state GALLERY [demo_concept]) None [] [Throw (Some "503")])))) = None /\
  selectedConcept (st (snd (App.handleSelectLogo demo_concept
     (demo_world (demo_state GALLERY [demo_concept]) None [] [Throw (Some "503")])))) =
     Some demo_concept /\
  exists pre, log (snd (App.handleSelectLogo demo_concept
     (demo_world (demo_state GALLERY [demo_concept]) None [] [Throw (Some "503")]))) =
     (pre ++ [EvAlert App.guide_notice])%list.
Proof.
  exact (C4_select_failure_keeps_gallery demo_concept
    (demo_world (demo_state GALLERY [demo_concept]) None [] [Throw (Some "503")]) eq_refl).
Defined.

(** C5, counterexample: a reply [{}] (no colour, no tip) is accepted: the
    stage is STYLE_GUIDE with that object as the style guide, which is not
    a well-formed one. *)
Lemma C5_empty_object_accepted :
  let w := snd (App.handleSelectLogo demo_concept
                  (demo_world (demo_state GALLERY [demo_concept]) None [] [Ok (Some "{}")])) in
  step (st w) = STYLE_GUIDE /\ styleGuide (st w) = Some (JObj []) /\
  guide_well_formed (JObj []) = false.
Proof. vm_compute. split; [reflexivity|split; reflexivity]. Qed.

(** C5, as the code has it: with a reply [t], [App.handleSelectLogo] shows
    any text [JSON.parse] accepts as the style guide, with no check of its
    fields (an absent text reads as [{}]); only a text it refuses sends the
    stage back to GALLERY, with the style guide left as it was. *)
Theorem C5_guide_is_any_json c w t :
  hd_error (text_replies w) = Some (Ok t) ->
  match JSON_parse (opt_str_or t "{}") with
  | Some v =>
      step (st (snd (App.handleSelectLogo c w))) = STYLE_GUIDE /\
      styleGuide (st (snd (App.handleSelectLogo c w))) = guide_of_json v
  | None =>
      step (st (snd (App.handleSelectLogo c w))) = GALLERY /\
      styleGuide (st (snd (App.handleSelectLogo c w))) = styleGuide (st w)
  end.
Proof.
  intros H.
  remember (snd (App.handleSelectLogo c w)) as x eqn:Ex.
  unfold App.handleSelectLogo, bind, try_catch, get_st, setSelectedConcept, setStep,
    setLoadingMsg, setStyleGuide, modify, with_st, read_API_KEY, generateText, emit, alert,
    JSON_parse_m, ret, throw in Ex.
  cbn -[JSON_parse opt_str_or] in Ex.
  destruct (text_replies w) as [|r rs]; [discriminate|]. injection H as ->.
  cbn -[JSON_parse opt_str_or] in Ex.
  destruct (JSON_parse (opt_str_or t "{}")); cbn in Ex; subst x; split; reflexivity.
Qed.

Lemma C5_witness :
  step (st (snd (App.handleSelectLogo demo_concept
     (demo_world (demo_state GALLERY [demo_concept]) None [] [Ok (Some "[1, 2]")])))) = STYLE_GUIDE /\
  styleGuide (st (snd (App.handleSelectLogo demo_concept
     (demo_world (demo_state GALLERY [demo_concept]) None [] [Ok (Some "[1, 2]")])))) =
     Some (JArr [JNum "1"; JNum "2"]).
Proof.
  exact (C5_guide_is_any_json demo_concept
    (demo_world (demo_state GALLERY [demo_concept]) None [] [Ok (Some "[1, 2]")])
    (Some "[1, 2]") eq_refl).
Defined.

(** C6, counterexample: a response with two images gives a concept whose
    image is the second one. *)
Lemma C6_second_image_taken :
  let resp := mkImageResponse [Some [mkPart (Some (mkBlob (Some "AAA"))) None;
                                     mkPart (Some (mkBlob (Some "BBB"))) None]] in
  match fst (App.concept_step demo_brand 0 "minimalist vector emblem"
               (demo_world (demo_state GENERATING []) None [Ok resp] [])) with
  | Ok c => imageUrl c
  | Throw _ => ""
  end = "data:image/png;base64,BBB".
Proof. vm_compute. reflexivity. Qed.

(** C6, as the code has it: a turn of the loop of [App.tsx] takes the LAST
    part with [inlineData] among the parts of the first candidate (an
    absent [data] gives a URL ending in [undefined]); with no such part it
    fails with the empty-result error. When there is such a part,
    [GeminiService] takes the last one too. *)
Theorem C6_last_inline_payload brand i s w resp rs :
  image_replies w = Ok resp :: rs ->
  (match last_inline (first_parts resp) with
   | Some b =>
       exists c w1, App.concept_step brand i s w = (Ok c, w1) /\
                    imageUrl c = "data:image/png;base64," ++ show_data (data b)
   | None =>
       exists w1, App.concept_step brand i s w =
                  (Throw (Some (App.concept_error (Some App.empty_result_msg))), w1)
   end) /\
  (forall b index, last_inline (first_parts resp) = Some b ->
     imageUrl (GeminiService.make_concept brand index s resp) =
     "data:image/png;base64," ++ show_data (data b)).
Proof.
  intros Hr. split.
  - destruct (last_inline (first_parts resp)) as [b|] eqn:Hb.
    + assert (Hok : image_ok (Ok resp) = true).
      { cbn. rewrite image_url_of_last_inline, Hb. reflexivity. }
      destruct (App_concept_step_ok brand i s w resp rs Hr Hok) as (t & w1 & E & _).
      do 2 eexists. split; [exact E|]. cbn. rewrite image_url_of_last_inline, Hb. reflexivity.
    + assert (Hn : next_reply w = Ok resp) by (unfold next_reply; rewrite Hr; reflexivity).
      assert (Hok : image_ok (next_reply w) = false).
      { rewrite Hn. cbn. rewrite image_url_of_last_inline, Hb. reflexivity. }
      destruct (App_concept_step_fail brand i s w Hok) as (w1 & E & _).
      rewrite Hn in E. exists w1. exact E.
  - intros b index Hb. cbn. rewrite image_url_of_last_inline, Hb. reflexivity.
Qed.

Lemma C6_witness :
  (exists c w1,
     App.concept_step demo_brand 0 "minimalist vector emblem"
       (demo_world (demo_state GENERATING []) None [Ok (png_response "AAA")] []) = (Ok c, w1) /\
     imageUrl c = "data:image/png;base64," ++ show_data (Some "AAA")) /\
  (forall b index, last_inline (first_parts (png_response "AAA")) = Some b ->
     imageUrl (GeminiService.make_concept demo_brand index "minimalist vector emblem"
                 (png_response "AAA")) =
     "data:image/png;base64," ++ show_data (data b)).
Proof.
  exact (C6_last_inline_payload demo_brand 0 "minimalist vector emblem"
    (demo_world (demo_state GENERATING []) None [Ok (png_response "AAA")] [])
    (png_response "AAA") [] eq_refl).
Defined.

(** C7, counterexample: after a successful batch, a finalized concept
    whose style guide the STYLE_GUIDE page renders without error, and a
    Restart, the stage is IDLE and both the three concepts and the style
    guide are still in the state. *)
Lemma C7_restart_keeps_concepts_and_guide :
  let w0 := demo_world App.init_state None
              [Ok (png_response "AAA"); Ok (png_response "BBB"); Ok (png_response "CCC")]
              [Ok (Some demo_guide_text)] in
  let w1 := App.run [App.Start; App.EditBrand demo_brand; App.Submit] w0 in
  let w2 := App.run [App.Finalize (hd demo_concept (concepts (st w1)))] w1 in
  let w := App.run [App.Restart] w2 in
  step (st w2) = STYLE_GUIDE /\ App.render_crashes (st w2) = false /\
  step (st w) = IDLE /\ length (concepts (st w)) = 3 /\
  styleGuide (st w) = styleGuide (st w2) /\ styleGuide (st w) <> None.
Proof. vm_compute. repeat split; try reflexivity; discriminate. Qed.

(** C7, as the code has it: in every state reached from the initial one, a
    style guide comes with a selected concept, and the concepts are none or
    the three of a successful batch; the header logo always sets the stage
    to IDLE and changes nothing else, Restart and the back arrow either
    change nothing or do the same; so all three keep the concepts, the
    selected concept and the style guide. *)
Theorem C7_reachable_invariant es w :
  st w = App.init_state ->
  inv (st (App.run es w)) /\
  (forall w', snd (App.dispatch App.Home w') = snd (setStep IDLE w')) /\
  (forall e w', In e [App.Restart; App.BackArrow] ->
     snd (App.dispatch e w') = w' \/ snd (App.dispatch e w') = snd (setStep IDLE w')) /\
  (forall e w', In e [App.Home; App.Restart; App.BackArrow] ->
     concepts (st (snd (App.dispatch e w'))) = concepts (st w') /\
     selectedConcept (st (snd (App.dispatch e w'))) = selectedConcept (st w') /\
     styleGuide (st (snd (App.dispatch e w'))) = styleGuide (st w')).
Proof.
  intros H. split; [|split; [|split]].
  - apply App_run_inv. rewrite H. split; [intros N; contradiction N; reflexivity|left; reflexivity].
  - intros w'. reflexivity.
  - intros e w' Hin. destruct Hin as [<-|[<-|[]]]; cbn [App.dispatch];
      [apply (on_step_cases STYLE_GUIDE (setStep IDLE) w')
      |apply (on_step_cases WIZARD (setStep IDLE) w')].
  - intros e w' Hin. destruct Hin as [<-|[<-|[<-|[]]]]; cbn [App.dispatch];
      [repeat split|destruct (on_step_cases STYLE_GUIDE (setStep IDLE) w') as [E|E]
      |destruct (on_step_cases WIZARD (setStep IDLE) w') as [E|E]];
      rewrite ?E; repeat split.
Qed.

Lemma C7_witness :
  inv (st (App.run [App.Start; App.EditBrand demo_brand; App.Submit; App.Home]
             (demo_world App.init_state None
                [Ok (png_response "AAA"); Ok (png_response "BBB"); Ok (png_response "CCC")] []))) /\
  (forall w', snd (App.dispatch App.Home w') = snd (setStep IDLE w')) /\
  (forall e w', In e [App.Restart; App.BackArrow] ->
     snd (App.dispatch e w') = w' \/ snd (App.dispatch e w') = snd (setStep IDLE w')) /\
  (forall e w', In e [App.Home; App.Restart; App.BackArrow] ->
     concepts (st (snd (App.dispatch e w'))) = concepts (st w') /\
     selectedConcept (st (snd (App.dispatch e w'))) = selectedConcept (st w') /\
     styleGuide (st (snd (App.dispatch e w'))) = styleGuide (st w')).
Proof.
  exact (C7_reachable_invariant [App.Start; App.EditBrand demo_brand; App.Submit; App.Home]
    (demo_world App.init_state None
       [Ok (png_response "AAA"); Ok (png_response "BBB"); Ok (png_response "CCC")] []) eq_refl).
Defined.

(** C8: a batch (past the credential gate) whose first failing request
    fails with a message containing [404] or [not found] ends in WIZARD
    with the message that asks for a key of a project with billing enabled,
    after one request per concept tried (no request is sent again); in
    [App.tsx] and in the earlier variant of [src/unnamed/part_000] (which
    then reopens the key selector, a credential flow, not a request). *)
Theorem C8_not_found_is_billing w k m :
  gate_passes w = true ->
  k < 3 ->
  (forall j, j < k -> image_ok (nth j (image_replies w) (Throw None)) = true) ->
  nth k (image_replies w) (Throw None) = Throw (Some m) ->
  (includes m "404" || includes m "not found") = true ->
  (step (st (snd (App.handleGenerate w))) = WIZARD /\
   errorMsg (st (snd (App.handleGenerate w))) = Some App.billing_msg /\
   count_generate (log (snd (App.handleGenerate w))) =
     count_generate (log w) + count_generate (gate_events w) + S k) /\
  (step (st (snd (AppV1.handleGenerate w))) = WIZARD /\
   errorMsg (st (snd (AppV1.handleGenerate w))) = Some AppV1.key_issue_msg /\
   count_generate (log (snd (AppV1.handleGenerate w))) =
     count_generate (log w) + count_generate (gate_events w) + S k) /\
  includes App.billing_msg "billing enabled" = true /\
  includes AppV1.key_issue_msg "billing enabled" = true.
Proof.
  intros Hg Hk Hok Hm Hinc. split; [|split; [|split; reflexivity]].
  - assert (Hf : image_ok (nth k (image_replies w) (Throw None)) = false) by (rewrite Hm; reflexivity).
    destruct (App_handleGenerate_fail w k Hg Hk Hok Hf) as (w' & E & S & _ & M & N).
    rewrite E. cbn [snd]. split; [exact S|split; [|exact N]].
    rewrite M, Hm. cbn [reply_message].
    unfold App.concept_error, msg_includes. rewrite Hinc. reflexivity.
  - exact (AppV1_handleGenerate_not_found w k m Hg Hk Hok Hm Hinc).
Qed.

Lemma C8_witness :
  (step (st (snd (App.handleGenerate
     (demo_world (demo_state WIZARD []) None [Ok (png_response "AAA"); Throw (Some "404 model not found")] []))))
     = WIZARD /\
   errorMsg (st (snd (App.handleGenerate
     (demo_world (demo_state WIZARD []) None [Ok (png_response "AAA"); Throw (Some "404 model not found")] []))))
     = Some App.billing_msg /\
   count_generate (log (snd (App.handleGenerate
     (demo_world (demo_state WIZARD []) None [Ok (png_response "AAA"); Throw (Some "404 model not found")] [])))) =
     0 + 0 + 2) /\
  (step (st (snd (AppV1.handleGenerate
     (demo_world (demo_state WIZARD []) None [Ok (png_response "AAA"); Throw (Some "404 model not found")] []))))
     = WIZARD /\
   errorMsg (st (snd (AppV1.handleGenerate
     (demo_world (demo_state WIZARD []) None [Ok (png_response "AAA"); Throw (Some "404 model not found")] []))))
     = Some AppV1.key_issue_msg /\
   count_generate (log (snd (AppV1.handleGenerate
     (demo_world (demo_state WIZARD []) None [Ok (png_response "AAA"); Throw (Some "404 model not found")] [])))) =
     0 + 0 + 2) /\
  includes App.billing_msg "billing enabled" = true /\
  includes AppV1.key_issue_msg "billing enabled" = true.
Proof.
  apply (C8_not_found_is_billing
    (demo_world (demo_state WIZARD []) None [Ok (png_response "AAA"); Throw (Some "404 model not found")] [])
    1 "404 model not found").
  - reflexivity.
  - lia.
  - intros j Hj. destruct j as [|j]; [reflexivity|lia].
  - reflexivity.
  - reflexivity.
Defined.

(** C9: with a host and no selected key, [App.handleGenerate] queries the
    credential, then calls [openSelectKey] once, before its first generation
    request (every later effect is a request); when the selection fails, no
    request is sent and the stage is unchanged. *)
Theorem C9_select_key_once_before_requests w h :
  aistudio w = Some h ->
  has_selected h = false ->
  exists rest,
    log (snd (App.handleGenerate w)) =
      (log w ++ EvHasSelectedApiKey :: EvOpenSelectKey :: rest)%list /\
    forallb is_generate rest = true /\
    (forall m, select_key h = Throw m ->
       rest = [] /\ step (st (snd (App.handleGenerate w))) = step (st w)).
Proof.
  intros Ha Hs. destruct (App_handleGenerate_log w) as (rest & L & F & G).
  exists rest. unfold gate_events in L. rewrite Ha, Hs in L.
  split; [exact L|split; [exact F|]].
  intros m Hm. apply G. unfold gate_passes. rewrite Ha, Hs, Hm. reflexivity.
Qed.

Lemma C9_witness :
  exists rest,
    log (snd (App.handleGenerate
      (demo_world (demo_state WIZARD []) (Some (mkHost false (Throw None))) [] []))) =
      ([] ++ EvHasSelectedApiKey :: EvOpenSelectKey :: rest)%list /\
    forallb is_generate rest = true /\
    (forall m, @Throw string None = Throw m ->
       rest = [] /\ step (st (snd (App.handleGenerate
         (demo_world (demo_state WIZARD []) (Some (mkHost false (Throw None))) [] [])))) = WIZARD).
Proof.
  exact (C9_select_key_once_before_requests
    (demo_world (demo_state WIZARD []) (Some (mkHost false (Throw None))) [] [])
    (mkHost false (Throw None)) eq_refl eq_refl).
Defined.

(** C10: every request [GeminiService.generateLogoConcepts] and
    [GeminiService.generateStyleGuide] send, from any world (whatever
    [process.env.API_KEY] holds then), carries the key the client was built
    with when the module was loaded. *)
Theorem C10_client_key_fixed_at_load env_at_load brand c :
  emits (sent_with (GeminiService.API_KEY_at_load env_at_load))
    (GeminiService.generateLogoConcepts (GeminiService.load env_at_load) brand) /\
  emits (sent_with (GeminiService.API_KEY_at_load env_at_load))
    (GeminiService.generateStyleGuide (GeminiService.load env_at_load) brand c).
Proof.
  split.
  - unfold GeminiService.generateLogoConcepts. apply emits_bind.
    + apply Gemini_send_all_key.
    + intros rs. destruct (GeminiService.all_settled brand rs); [apply emits_ret|apply emits_throw].
  - unfold GeminiService.generateStyleGuide. apply emits_bind.
    + apply emits_generateText. cbn. apply String.eqb_refl.
    + intros [t|]; [apply emits_JSON_parse_m|apply emits_throw].
Qed.

(* ------------------------------------------------------------------ *)
(** * Further properties of the code *)

(** ** Strings *)

Lemma includes_prefix (sub s : string) : includes (sub ++ s) sub = true.
Proof.
  assert (P : String.prefix sub (sub ++ s) = true).
  { induction sub as [|c sub IH]; [destruct s; reflexivity|].
    cbn. destruct (Ascii.ascii_dec c c) as [_|n]; [exact IH|contradiction]. }
  destruct sub as [|c sub]; cbn in *; [destruct s; reflexivity|].
  rewrite P. reflexivity.
Qed.

Lemma includes_app_r (s1 s2 sub : string) :
  includes s2 sub = true -> includes (s1 ++ s2) sub = true.
Proof.
  intros H. induction s1 as [|c s1 IH]; [exact H|].
  cbn. rewrite IH. apply orb_true_r.
Qed.

Lemma includes_app_l (s1 s2 sub : string) :
  includes s1 sub = true -> includes (s1 ++ s2) sub = true.
Proof.
  assert (P : forall u v, String.prefix sub u = true -> String.prefix sub (u ++ v) = true).
  { induction sub as [|c sub IH]; intros u v H; [destruct (u ++ v); reflexivity|].
    destruct u as [|d u]; [discriminate|].
    cbn in H |- *. destruct (Ascii.ascii_dec c d); [exact (IH u v H)|discriminate]. }
  assert (E : forall c s, includes (String c s) sub = String.prefix sub (String c s) || includes s sub)
    by reflexivity.
  induction s1 as [|c s1 IH]; intros H.
  - cbn in H. destruct sub; [destruct s2; reflexivity|discriminate].
  - change (String c s1 ++ s2) with (String c (s1 ++ s2)).
    rewrite E in H |- *. apply orb_true_iff in H as [H|H]; apply orb_true_iff.
    + left. exact (P _ s2 H).
    + right. exact (IH H).
Qed.

Ltac includes_tac :=
  first [ apply includes_prefix
        | apply includes_app_r; includes_tac
        | apply includes_app_l; includes_tac ].

(** ** The credential of [App] *)

Lemma App_key_gate_env w :
  env_API_KEY (snd (App.key_gate w)) = key_after_gate w.
Proof.
  unfold App.key_gate, key_after_gate, hasSelectedApiKey,
    App.handleOpenKeySelector, openSelectKey, setHasKey.
  world_simpl.
  destruct (aistudio w) as [h|] eqn:Ha; cbn; repeat (rewrite Ha; cbn); [|reflexivity].
  destruct (has_selected h); cbn; repeat (rewrite Ha; cbn); [reflexivity|].
  destruct (select_key h); reflexivity.
Qed.

Lemma App_concept_step_key brand i s w k :
  env_API_KEY w = Some k ->
  exists rest,
    log (snd (App.concept_step brand i s w)) = (log w ++ rest)%list /\
    forallb (sent_with k) rest = true /\
    env_API_KEY (snd (App.concept_step brand i s w)) = Some k.
Proof.
  intros Hk.
  unfold App.concept_step, generateImage, send_image, setLoadingMsg. world_simpl.
  rewrite Hk.
  destruct (image_replies w) as [|[resp|m] rs]; cbn;
    repeat (match goal with |- context [if ?b then _ else _] => destruct b end; cbn);
    try (destruct (clock w); cbn);
    eexists; (split; [reflexivity|]); cbn; rewrite ?String.eqb_refl;
    (split; [reflexivity|first [exact Hk|reflexivity]]).
Qed.

Lemma App_concept_loop_key brand k ss : forall i acc w,
  env_API_KEY w = Some k ->
  exists rest,
    log (snd (App.concept_loop brand ss i acc w)) = (log w ++ rest)%list /\
    forallb (sent_with k) rest = true /\
    env_API_KEY (snd (App.concept_loop brand ss i acc w)) = Some k.
Proof.
  induction ss as [|s ss IH]; intros i acc w Hk; cbn.
  - exists []. rewrite app_nil_r. auto.
  - unfold bind.
    destruct (App_concept_step_key brand i s w k Hk) as (r1 & L1 & F1 & K1).
    destruct (App.concept_step brand i s w) as [[c|m] w1]; cbn in L1, K1 |- *.
    + destruct (IH (S i) (acc ++ [c])%list w1 K1) as (r2 & L2 & F2 & K2).
      exists (r1 ++ r2)%list. rewrite L2, L1, <- app_assoc, forallb_app, F1, F2.
      split; [reflexivity|split; [reflexivity|exact K2]].
    + exists r1. auto.
Qed.

Lemma App_generate_phase_key brand w k :
  env_API_KEY w = Some k ->
  exists rest,
    log (snd (App.generate_phase brand w)) = (log w ++ rest)%list /\
    forallb (sent_with k) rest = true.
Proof.
  intros Hk.
  unfold App.generate_phase, App.generateLogoConcepts, bind, try_catch, setStep,
    setLoadingMsg, setConcepts, setErrorMsg, modify, with_st.
  cbn -[App.concept_loop].
  match goal with |- context [App.concept_loop ?b ?ss ?i ?a ?w2] =>
    destruct (App_concept_loop_key b k ss i a w2 Hk) as (rest & L & F & _);
    destruct (App.concept_loop b ss i a w2) as [[l|m] w3]
  end; cbn in L |- *; exists rest; auto.
Qed.

(** ** The loops of [App] and of its earlier variant, when every reply
    carries an image *)

Lemma App_loop_succeeds brand ss : forall i acc w,
  (forall j, j < length ss -> image_ok (nth j (image_replies w) (Throw None)) = true) ->
  exists l w',
    App.concept_loop brand ss i acc w = (Ok l, w') /\
    length l = length acc + length ss /\
    core (st w') = core (st w) /\
    count_generate (log w') = count_generate (log w) + length ss.
Proof.
  induction ss as [|s ss IH]; intros i acc w Hok.
  - exists acc, w. cbn. repeat split; lia.
  - assert (H0 := Hok 0 ltac:(cbn; lia)).
    destruct (image_replies w) as [|r rs] eqn:Hr; [discriminate|].
    destruct r as [resp|m]; [|discriminate].
    destruct (App_concept_step_ok brand i s w resp rs Hr H0)
      as (t & w1 & Hs & Hr1 & Hc1 & _ & _ & Hn1).
    cbn. unfold bind at 1. rewrite Hs.
    assert (Hok1 : forall j, j < length ss -> image_ok (nth j (image_replies w1) (Throw None)) = true).
    { intros j Hj. rewrite Hr1. exact (Hok (S j) ltac:(cbn; lia)). }
    match goal with
    | |- context [App.concept_loop brand ss (S i) ?a w1] =>
        destruct (IH (S i) a w1 Hok1) as (l & w' & Hl & Hlen & Hc & Hn)
    end.
    exists l, w'. rewrite length_app in Hlen. cbn in Hlen.
    repeat split; [exact Hl|lia|congruence|lia].
Qed.

Lemma AppV1_concept_step_id brand i s w resp rs :
  image_replies w = Ok resp :: rs ->
  image_ok (Ok resp) = true ->
  exists c w1,
    AppV1.concept_step brand i s w = (Ok c, w1) /\
    id c = "concept-" ++ show_nat i /\
    image_replies w1 = rs /\ core (st w1) = core (st w) /\
    count_generate (log w1) = S (count_generate (log w)).
Proof.
  intros Hr Hok. unfold image_ok in Hok.
  unfold AppV1.concept_step, generateImage, send_image, setLoadingMsg. world_simpl.
  rewrite Hr. cbn.
  destruct (String.eqb (image_url_of (first_parts resp)) "") eqn:E; [discriminate|].
  do 2 eexists. split; [reflexivity|]. cbn.
  repeat split; try reflexivity; unfold count_generate in *; cbn [log];
    rewrite ?filter_app, ?length_app; cbn; lia.
Qed.

Lemma AppV1_loop_succeeds brand ss : forall i acc w,
  (forall j, j < length ss -> image_ok (nth j (image_replies w) (Throw None)) = true) ->
  exists l w',
    AppV1.concept_loop brand ss i acc w = (Ok (acc ++ l)%list, w') /\
    map id l = map (fun j => "concept-" ++ show_nat j) (seq i (length ss)) /\
    core (st w') = core (st w) /\
    count_generate (log w') = count_generate (log w) + length ss.
Proof.
  induction ss as [|s ss IH]; intros i acc w Hok.
  - exists [], w. cbn. rewrite app_nil_r. repeat split; lia.
  - assert (H0 := Hok 0 ltac:(cbn; lia)).
    destruct (image_replies w) as [|r rs] eqn:Hr; [discriminate|].
    destruct r as [resp|m]; [|discriminate].
    destruct (AppV1_concept_step_id brand i s w resp rs Hr H0)
      as (c & w1 & Hs & Hid & Hr1 & Hc1 & Hn1).
    cbn. unfold bind at 1. rewrite Hs.
    assert (Hok1 : forall j, j < length ss -> image_ok (nth j (image_replies w1) (Throw None)) = true).
    { intros j Hj. rewrite Hr1. exact (Hok (S j) ltac:(cbn; lia)). }
    destruct (IH (S i) (acc ++ [c])%list w1 Hok1) as (l & w' & Hl & Hids & Hc & Hn).
    exists (c :: l), w'. rewrite <- app_assoc in Hl.
    repeat split; [exact Hl|cbn; rewrite Hid, Hids; reflexivity|congruence|lia].
Qed.

(* ------------------------------------------------------------------ *)
(** ** Properties of the handlers *)

(** [App.handleOpenKeySelector] (and the identical one of the earlier
    variant): with no host it does nothing and reports [false]; with a host
    it opens the selector once; a successful selection sets [hasKey] and
    installs the key, a failed one is swallowed and leaves the state and the
    key as they were. *)
Theorem X_handleOpenKeySelector w :
  match aistudio w with
  | Some h =>
      match select_key h with
      | Ok k =>
          exists w', App.handleOpenKeySelector w = (Ok true, w') /\
            hasKey (st w') = true /\ env_API_KEY w' = Some k /\
            core (st w') = core (st w) /\ log w' = (log w ++ [EvOpenSelectKey])%list
      | Throw _ =>
          exists w', App.handleOpenKeySelector w = (Ok false, w') /\
            st w' = st w /\ env_API_KEY w' = env_API_KEY w /\
            log w' = (log w ++ [EvOpenSelectKey])%list
      end
  | None => App.handleOpenKeySelector w = (Ok false, w)
  end.
Proof.
  unfold App.handleOpenKeySelector, openSelectKey, setHasKey. world_simpl.
  destruct (aistudio w) as [h|] eqn:Ha; cbn; [|reflexivity].
  rewrite Ha. destruct (select_key h); cbn; eexists; repeat split; reflexivity.
Qed.

(** [checkKey], run once on mount: with a host that answers the query,
    it queries the credential once and copies the answer to [hasKey]; the
    rest of the state and of the world is as before, apart from the query
    itself. With no host it does nothing. (A host here always answers: the
    [catch] of a rejected query is not reached in this model.) *)
Theorem X_checkKey w :
  match aistudio w with
  | Some h =>
      App.checkKey w =
        (Ok tt,
         mkWorld (mkAppState (step (st w)) (has_selected h) (errorMsg (st w)) (brandInfo (st w))
                    (concepts (st w)) (selectedConcept (st w)) (styleGuide (st w))
                    (loadingMsg (st w)))
           (aistudio w) (env_API_KEY w) (clock w) (image_replies w) (text_replies w)
           (log w ++ [EvHasSelectedApiKey])%list)
  | None => App.checkKey w = (Ok tt, w)
  end.
Proof.
  unfold App.checkKey, hasSelectedApiKey, setHasKey. world_simpl.
  destruct (aistudio w) as [h|] eqn:Ha; cbn; [|reflexivity].
  rewrite Ha. cbn. reflexivity.
Qed.

(** [App.generateLogoConcepts] sends its requests one after the other and
    stops at the first reply without an image: when that is the [k]-th, it
    has sent exactly [k+1] requests, rejects with the error of that reply,
    and every field of the state but the progress text is as before. *)
Theorem X_App_loop_stops_at_first_failure brand w k :
  k < 3 ->
  (forall j, j < k -> image_ok (nth j (image_replies w) (Throw None)) = true) ->
  image_ok (nth k (image_replies w) (Throw None)) = false ->
  exists w',
    App.generateLogoConcepts brand w =
      (Throw (Some (App.concept_error (reply_message (nth k (image_replies w) (Throw None))))), w') /\
    core (st w') = core (st w) /\ hasKey (st w') = hasKey (st w) /\
    count_generate (log w') = count_generate (log w) + S k.
Proof.
  intros Hk Hok Hf.
  destruct (App_loop_fail_at brand App.styles k 0 [] w ltac:(cbn; lia) Hok Hf)
    as (w' & L & C & _ & N).
  exists w'. split; [exact L|]. split; [exact C|]. split; [|exact N].
  assert (K := App_concept_loop_keeps_hasKey brand App.styles 0 [] w).
  rewrite L in K. exact K.
Qed.

Lemma X_App_loop_stops_at_first_failure_witness :
  exists w',
    App.generateLogoConcepts demo_brand
      (demo_world (demo_state GENERATING []) None [Ok (png_response "AAA"); Ok text_response] []) =
      (Throw (Some (App.concept_error (reply_message (Ok text_response)))), w') /\
    core (st w') = core (demo_state GENERATING []) /\
    hasKey (st w') = hasKey (demo_state GENERATING []) /\
    count_generate (log w') = 0 + 2.
Proof.
  exact (X_App_loop_stops_at_first_failure demo_brand
    (demo_world (demo_state GENERATING []) None [Ok (png_response "AAA"); Ok text_response] []) 1
    ltac:(lia)
    ltac:(intros j Hj; destruct j as [|j]; [reflexivity|lia])
    eq_refl).
Defined.

(** [App.handleGenerate] reads [process.env.API_KEY] when it builds each
    client, not once per submit. When no other handler runs while the batch
    is in flight (the model runs a handler as one step, so a key selected
    from the header during the batch is not covered), every image request
    carries the key in effect once its gate is through: the one the user
    just selected, if the gate opened the selector. *)
Theorem X_App_requests_use_current_key w k :
  key_after_gate w = Some k ->
  exists rest,
    log (snd (App.handleGenerate w)) = (log w ++ gate_events w ++ rest)%list /\
    forallb (sent_with k) rest = true.
Proof.
  intros Hk.
  rewrite App_handleGenerate_unfold. unfold bind. cbv beta.
  set (w0 := snd (setErrorMsg None w)).
  destruct (App_key_gate w0) as (w1 & Hg1 & _ & Hl1 & _).
  assert (E := App_key_gate_env w0). rewrite Hg1 in E. cbn [snd] in E.
  change (gate_events w0) with (gate_events w) in Hl1;
  change (log w0) with (log w) in Hl1;
  change (key_after_gate w0) with (key_after_gate w) in E.
  rewrite Hg1. destruct (gate_passes w0); cbn -[App.generate_phase].
  - destruct (App_generate_phase_key (brandInfo (st w)) w1 k ltac:(congruence))
      as (rest & L & F).
    exists rest. rewrite L, Hl1, <- app_assoc. auto.
  - exists []. rewrite app_nil_r. auto.
Qed.

Lemma X_App_requests_use_current_key_witness :
  exists rest,
    log (snd (App.handleGenerate
      (demo_world (demo_state WIZARD []) (Some (mkHost false (Ok "key-2")))
         [Ok (png_response "AAA"); Ok (png_response "BBB"); Ok (png_response "CCC")] []))) =
      ([] ++ [EvHasSelectedApiKey; EvOpenSelectKey] ++ rest)%list /\
    forallb (sent_with "key-2") rest = true.
Proof.
  exact (X_App_requests_use_current_key
    (demo_world (demo_state WIZARD []) (Some (mkHost false (Ok "key-2")))
       [Ok (png_response "AAA"); Ok (png_response "BBB"); Ok (png_response "CCC")] [])
    "key-2" eq_refl).
Defined.

(** The texts [App.handleGenerate] shows in the wizard when, past its gate,
    the [k]-th image reply is the first refused: the rate-limit text for a
    rejection whose message has [429], the key text for one that has
    [API key] (neither with a not-found error), and the empty-result text
    for a response without an image. *)
Theorem X_App_error_texts w k :
  gate_passes w = true ->
  k < 3 ->
  (forall j, j < k -> image_ok (nth j (image_replies w) (Throw None)) = true) ->
  (forall m,
     nth k (image_replies w) (Throw None) = Throw (Some m) ->
     includes m "404" = false -> includes m "not found" = false ->
     (includes m "429" = true ->
        step (st (snd (App.handleGenerate w))) = WIZARD /\
        errorMsg (st (snd (App.handleGenerate w))) =
          Some "Too many requests. Please wait 60 seconds and try again.") /\
     (includes m "429" = false -> includes m "API key" = true ->
        step (st (snd (App.handleGenerate w))) = WIZARD /\
        errorMsg (st (snd (App.handleGenerate w))) =
          Some "The selected API key is invalid or expired. Please re-select your key.")) /\
  (forall resp,
     nth k (image_replies w) (Throw None) = Ok resp -> image_ok (Ok resp) = false ->
     step (st (snd (App.handleGenerate w))) = WIZARD /\
     errorMsg (st (snd (App.handleGenerate w))) = Some App.empty_result_msg).
Proof.
  intros Hg Hk Hok. split.
  - intros m Hm H404 Hnf.
    assert (Hf : image_ok (nth k (image_replies w) (Throw None)) = false) by (rewrite Hm; reflexivity).
    destruct (App_handleGenerate_fail w k Hg Hk Hok Hf) as (w' & E & S & _ & Em & _).
    rewrite E. cbn [snd]. rewrite Hm in Em. cbn [reply_message] in Em.
    unfold App.concept_error, msg_includes in Em. rewrite H404, Hnf in Em. cbn in Em.
    split; intros H429; [|intros Hkey]; rewrite H429 in Em; [|rewrite Hkey in Em];
      split; first [exact S | exact Em].
  - intros resp Hr Hi.
    assert (Hf : image_ok (nth k (image_replies w) (Throw None)) = false) by (rewrite Hr; exact Hi).
    destruct (App_handleGenerate_fail w k Hg Hk Hok Hf) as (w' & E & S & _ & Em & _).
    rewrite E. cbn [snd]. rewrite Hr in Em. split; [exact S|].
    rewrite Em. reflexivity.
Qed.

Lemma X_App_error_texts_witness :
  step (st (snd (App.handleGenerate
    (demo_world (demo_state WIZARD []) None
       [Ok (png_response "AAA"); Throw (Some "429 Resource exhausted")] [])))) = WIZARD /\
  errorMsg (st (snd (App.handleGenerate
    (demo_world (demo_state WIZARD []) None
       [Ok (png_response "AAA"); Throw (Some "429 Resource exhausted")] [])))) =
    Some "Too many requests. Please wait 60 seconds and try again.".
Proof.
  exact (proj1 (proj1 (X_App_error_texts
    (demo_world (demo_state WIZARD []) None
       [Ok (png_response "AAA"); Throw (Some "429 Resource exhausted")] []) 1
    eq_refl ltac:(lia) ltac:(intros j Hj; destruct j as [|j]; [reflexivity|lia]))
    "429 Resource exhausted" eq_refl eq_refl eq_refl) eq_refl).
Defined.

(** A submit of [App] whose gate lets it through and whose three image
    replies all carry an image shows the gallery with three new concepts,
    clears the error, and sends exactly three requests. *)
Theorem X_App_handleGenerate_success w :
  gate_passes w = true ->
  (forall j, j < 3 -> image_ok (nth j (image_replies w) (Throw None)) = true) ->
  step (st (snd (App.handleGenerate w))) = GALLERY /\
  errorMsg (st (snd (App.handleGenerate w))) = None /\
  length (concepts (st (snd (App.handleGenerate w)))) = 3 /\
  count_generate (log (snd (App.handleGenerate w))) =
    count_generate (log w) + count_generate (gate_events w) + 3.
Proof.
  intros Hg Hok.
  remember (snd (App.handleGenerate w)) as x eqn:Ex.
  rewrite App_handleGenerate_unfold in Ex. unfold bind at 1 in Ex. cbv beta in Ex.
  set (w0 := snd (setErrorMsg None w)) in Ex.
  destruct (App_key_gate w0) as (w1 & Hg1 & Hr1 & Hl1 & Hc1).
  change (gate_events w0) with (gate_events w) in Hl1;
  change (log w0) with (log w) in Hl1;
  change (gate_passes w0) with (gate_passes w) in Hg1.
  rewrite Hg1, Hg in Ex. cbn -[App.generate_phase] in Ex.
  unfold App.generate_phase, App.generateLogoConcepts, bind, try_catch, setStep,
    setLoadingMsg, setConcepts, setErrorMsg, modify, with_st in Ex.
  cbn -[App.concept_loop] in Ex.
  match type of Ex with context [App.concept_loop ?b ?ss ?i ?a ?w2] =>
    assert (R : image_replies w2 = image_replies w) by (cbn; exact Hr1);
    assert (Hok2 : forall j, j < length ss -> image_ok (nth j (image_replies w2) (Throw None)) = true)
      by (rewrite R; exact Hok);
    destruct (App_loop_succeeds b ss i a w2 Hok2) as (l & w' & Hl & Hlen & Hc & Hn);
    rewrite Hl in Ex
  end.
  cbn in Ex. subst x. cbn.
  unfold core in Hc, Hc1. cbn in Hc, Hc1.
  injection Hc as _ He _ _ _ _. injection Hc1 as _ He1 _ _ _ _.
  split; [reflexivity|split; [congruence|split; [exact Hlen|]]].
  fold (count_generate (log w')). rewrite Hn. cbn [log]. rewrite Hl1, count_generate_app. cbn. lia.
Qed.

Lemma X_App_handleGenerate_success_witness :
  step (st (snd (App.handleGenerate
    (demo_world (mkAppState WIZARD false (Some "old error") demo_brand [] None None "")
       (Some (mkHost true (Throw None)))
       [Ok (png_response "AAA"); Ok (png_response "BBB"); Ok (png_response "CCC")] [])))) = GALLERY /\
  errorMsg (st (snd (App.handleGenerate
    (demo_world (mkAppState WIZARD false (Some "old error") demo_brand [] None None "")
       (Some (mkHost true (Throw None)))
       [Ok (png_response "AAA"); Ok (png_response "BBB"); Ok (png_response "CCC")] [])))) = None /\
  length (concepts (st (snd (App.handleGenerate
    (demo_world (mkAppState WIZARD false (Some "old error") demo_brand [] None None "")
       (Some (mkHost true (Throw None)))
       [Ok (png_response "AAA"); Ok (png_response "BBB"); Ok (png_response "CCC")] []))))) = 3 /\
  count_generate (log (snd (App.handleGenerate
    (demo_world (mkAppState WIZARD false (Some "old error") demo_brand [] None None "")
       (Some (mkHost true (Throw None)))
       [Ok (png_response "AAA"); Ok (png_response "BBB"); Ok (png_response "CCC")] [])))) =
    0 + 0 + 3.
Proof.
  exact (X_App_handleGenerate_success
    (demo_world (mkAppState WIZARD false (Some "old error") demo_brand [] None None "")
       (Some (mkHost true (Throw None)))
       [Ok (png_response "AAA"); Ok (png_response "BBB"); Ok (png_response "CCC")] [])
    eq_refl
    ltac:(intros j Hj; destruct j as [|[|[|j]]]; [reflexivity|reflexivity|reflexivity|lia])).
Defined.

(** ** More lemmas: the earlier variant and [GeminiService] *)

Lemma AppV1_concept_loop_emits brand ss : forall i acc,
  emits is_generate (AppV1.concept_loop brand ss i acc).
Proof.
  induction ss as [|s ss IH]; intros i acc; cbn.
  - apply emits_ret.
  - apply emits_bind; [unfold AppV1.concept_step; emits_tac|intros c; apply IH].
Qed.

(** The batch of [GeminiService.generateLogoConcepts], by cases on the
    three replies. *)
Lemma Gemini_batch svc brand w :
  exists rest,
    log (snd (GeminiService.generateLogoConcepts svc brand w)) = (log w ++ rest)%list /\
    forallb is_generate rest = true /\ count_generate rest = 3 /\
    st (snd (GeminiService.generateLogoConcepts svc brand w)) = st w /\
    image_replies (snd (GeminiService.generateLogoConcepts svc brand w)) = skipn 3 (image_replies w) /\
    ((exists cs, fst (GeminiService.generateLogoConcepts svc brand w) = Ok cs) <-> batch_fulfilled w) /\
    (forall cs, fst (GeminiService.generateLogoConcepts svc brand w) = Ok cs ->
       map id cs = ["concept-0"; "concept-1"; "concept-2"]).
Proof.
  unfold GeminiService.generateLogoConcepts, GeminiService.send_all, send_image, emit, bind,
    ret, throw, batch_fulfilled.
  cbn.
  destruct (image_replies w) as [|r0 [|r1 [|r2 rs]]]; cbn;
    repeat match goal with
    | |- context [match ?r with Ok _ => _ | Throw _ => _ end] => is_var r; destruct r
    end; cbn;
    eexists; (split; [rewrite <- !app_assoc; reflexivity|]);
    (split; [reflexivity|split; [reflexivity|split; [reflexivity|split; [reflexivity|split]]]]);
    first
      [ split; [intros _ j Hj; destruct j as [|[|[|j]]]; cbn; eauto; lia|intros _; eauto]
      | split; [intros [cs Hcs]; discriminate|intros H; exfalso];
        first [ destruct (H 0 ltac:(lia)) as [? Hr]; cbn in Hr; discriminate
              | destruct (H 1 ltac:(lia)) as [? Hr]; cbn in Hr; discriminate
              | destruct (H 2 ltac:(lia)) as [? Hr]; cbn in Hr; discriminate ]
      | intros cs Hcs; injection Hcs as <-; reflexivity
      | intros cs Hcs; discriminate ].
Qed.

(** [GeminiService.generateLogoConcepts] sends all three requests whatever
    the replies, consumes three replies and leaves the page state alone; it
    resolves exactly when all three requests are fulfilled (an image is not
    required), with the ids [concept-0], [concept-1], [concept-2]. *)
Theorem X_Gemini_batch_three_requests svc brand w :
  exists rest,
    log (snd (GeminiService.generateLogoConcepts svc brand w)) = (log w ++ rest)%list /\
    forallb is_generate rest = true /\ count_generate rest = 3 /\
    st (snd (GeminiService.generateLogoConcepts svc brand w)) = st w /\
    image_replies (snd (GeminiService.generateLogoConcepts svc brand w)) = skipn 3 (image_replies w) /\
    ((exists cs, fst (GeminiService.generateLogoConcepts svc brand w) = Ok cs) <-> batch_fulfilled w) /\
    (forall cs, fst (GeminiService.generateLogoConcepts svc brand w) = Ok cs ->
       map id cs = ["concept-0"; "concept-1"; "concept-2"]).
Proof. exact (Gemini_batch svc brand w). Qed.

(** [handleGenerate] of the component that calls [GeminiService] never
    queries or selects the credential: it sends the three requests, then
    shows the gallery with three concepts when all are fulfilled, or else
    alerts and goes back to the wizard with the concepts as they were. *)
Theorem X_AppGemini_handleGenerate svc w :
  exists reqs,
    forallb is_generate reqs = true /\ count_generate reqs = 3 /\
    (batch_fulfilled w ->
       log (snd (AppGemini.handleGenerate svc w)) = (log w ++ reqs)%list /\
       step (st (snd (AppGemini.handleGenerate svc w))) = GALLERY /\
       length (concepts (st (snd (AppGemini.handleGenerate svc w)))) = 3) /\
    (~ batch_fulfilled w ->
       log (snd (AppGemini.handleGenerate svc w)) =
         (log w ++ reqs ++ [EvAlert "Failed to generate logos. Please try again."])%list /\
       step (st (snd (AppGemini.handleGenerate svc w))) = WIZARD /\
       concepts (st (snd (AppGemini.handleGenerate svc w))) = concepts (st w)).
Proof.
  remember (snd (AppGemini.handleGenerate svc w)) as x eqn:Ex.
  unfold AppGemini.handleGenerate, bind, try_catch, get_st, setStep, setLoadingMsg,
    setConcepts, alert, emit, modify, with_st in Ex.
  cbn -[GeminiService.generateLogoConcepts] in Ex.
  match type of Ex with context [GeminiService.generateLogoConcepts ?s ?b ?w2] =>
    destruct (Gemini_batch s b w2) as (reqs & L & F & C & S & _ & I & Ids);
    destruct (GeminiService.generateLogoConcepts s b w2) as [[cs|m] w3]
  end.
  all: unfold batch_fulfilled in I |- *; cbn in L, S, I, Ids, Ex; subst x.
  all: exists reqs; split; [exact F|split; [exact C|]].
  - split; intros Hb.
    + cbn. split; [exact L|split; [reflexivity|]].
      rewrite <- (length_map id cs), (Ids cs eq_refl). reflexivity.
    + exfalso. apply Hb, I. eauto.
  - split; intros Hb.
    + exfalso. destruct (proj2 I Hb) as [cs Hcs]. discriminate.
    + cbn. rewrite L, <- app_assoc, S. repeat split; reflexivity.
Qed.

(** [handleSelectLogo] of the component that calls [GeminiService]: the
    concept is selected and the gallery kept; a reply text [JSON.parse]
    accepts becomes the style guide; a failed request, an absent text or a
    text [JSON.parse] refuses sends the stage back to GALLERY with an alert
    and the previous style guide. *)
Theorem X_AppGemini_handleSelectLogo svc c w :
  selectedConcept (st (snd (AppGemini.handleSelectLogo svc c w))) = Some c /\
  concepts (st (snd (AppGemini.handleSelectLogo svc c w))) = concepts (st w) /\
  match hd_error (text_replies w) with
  | Some (Ok (Some t)) =>
      match JSON_parse t with
      | Some v =>
          step (st (snd (AppGemini.handleSelectLogo svc c w))) = STYLE_GUIDE /\
          styleGuide (st (snd (AppGemini.handleSelectLogo svc c w))) = guide_of_json v
      | None =>
          step (st (snd (AppGemini.handleSelectLogo svc c w))) = GALLERY /\
          styleGuide (st (snd (AppGemini.handleSelectLogo svc c w))) = styleGuide (st w) /\
          exists pre, log (snd (AppGemini.handleSelectLogo svc c w)) =
            (pre ++ [EvAlert "Error creating style guide."])%list
      end
  | _ =>
      step (st (snd (AppGemini.handleSelectLogo svc c w))) = GALLERY /\
      styleGuide (st (snd (AppGemini.handleSelectLogo svc c w))) = styleGuide (st w) /\
      exists pre, log (snd (AppGemini.handleSelectLogo svc c w)) =
        (pre ++ [EvAlert "Error creating style guide."])%list
  end.
Proof.
  remember (snd (AppGemini.handleSelectLogo svc c w)) as x eqn:Ex.
  unfold AppGemini.handleSelectLogo, GeminiService.generateStyleGuide, bind, try_catch, get_st,
    setSelectedConcept, setStep, setLoadingMsg, setStyleGuide, modify, with_st, generateText,
    emit, alert, JSON_parse_m, ret, throw in Ex.
  cbn -[JSON_parse] in Ex.
  destruct (text_replies w) as [|[[t|]|m] rs]; cbn -[JSON_parse] in Ex |- *;
    [| destruct (JSON_parse t) | | ]; cbn in Ex; subst x; cbn;
    repeat split; eexists; reflexivity.
Qed.

(** [handleSelectLogo] of the earlier variant: the concept is selected and
    the gallery kept; a reply text [JSON.parse] accepts (an absent text
    reads as [{}]) becomes the style guide; a failed request or a text
    [JSON.parse] refuses sends the stage back to GALLERY with its notice and
    the previous style guide. *)
Theorem X_AppV1_handleSelectLogo c w :
  selectedConcept (st (snd (AppV1.handleSelectLogo c w))) = Some c /\
  concepts (st (snd (AppV1.handleSelectLogo c w))) = concepts (st w) /\
  match hd_error (text_replies w) with
  | Some (Ok t) =>
      match JSON_parse (opt_str_or t "{}") with
      | Some v =>
          step (st (snd (AppV1.handleSelectLogo c w))) = STYLE_GUIDE /\
          styleGuide (st (snd (AppV1.handleSelectLogo c w))) = guide_of_json v
      | None =>
          step (st (snd (AppV1.handleSelectLogo c w))) = GALLERY /\
          styleGuide (st (snd (AppV1.handleSelectLogo c w))) = styleGuide (st w) /\
          exists pre, log (snd (AppV1.handleSelectLogo c w)) =
            (pre ++ [EvAlert AppV1.guide_notice])%list
      end
  | _ =>
      step (st (snd (AppV1.handleSelectLogo c w))) = GALLERY /\
      styleGuide (st (snd (AppV1.handleSelectLogo c w))) = styleGuide (st w) /\
      exists pre, log (snd (AppV1.handleSelectLogo c w)) =
        (pre ++ [EvAlert AppV1.guide_notice])%list
  end.
Proof.
  remember (snd (AppV1.handleSelectLogo c w)) as x eqn:Ex.
  unfold AppV1.handleSelectLogo, bind, try_catch, get_st, setSelectedConcept, setStep,
    setLoadingMsg, setStyleGuide, modify, with_st, read_API_KEY, generateText, emit, alert,
    JSON_parse_m, ret, throw in Ex.
  cbn -[JSON_parse opt_str_or] in Ex.
  destruct (text_replies w) as [|[t|m] rs]; cbn -[JSON_parse opt_str_or] in Ex |- *;
    [| destruct (JSON_parse (opt_str_or t "{}")) |]; cbn in Ex; subst x; cbn;
    repeat split; eexists; reflexivity.
Qed.

(** A submit of the earlier variant whose gate lets it through and whose
    three image replies all carry an image shows the gallery with the
    concepts [concept-0], [concept-1], [concept-2], clears the error and
    sends exactly three requests. *)
Theorem X_AppV1_handleGenerate_success w :
  gate_passes w = true ->
  (forall j, j < 3 -> image_ok (nth j (image_replies w) (Throw None)) = true) ->
  step (st (snd (AppV1.handleGenerate w))) = GALLERY /\
  errorMsg (st (snd (AppV1.handleGenerate w))) = None /\
  map id (concepts (st (snd (AppV1.handleGenerate w)))) = ["concept-0"; "concept-1"; "concept-2"] /\
  count_generate (log (snd (AppV1.handleGenerate w))) =
    count_generate (log w) + count_generate (gate_events w) + 3.
Proof.
  intros Hg Hok.
  remember (snd (AppV1.handleGenerate w)) as x eqn:Ex.
  rewrite AppV1_handleGenerate_unfold in Ex. unfold bind at 1 in Ex. cbv beta in Ex.
  set (w0 := snd (setErrorMsg None w)) in Ex.
  destruct (App_key_gate w0) as (w1 & Hg1 & Hr1 & Hl1 & Hc1).
  change (gate_events w0) with (gate_events w) in Hl1;
  change (log w0) with (log w) in Hl1;
  change (gate_passes w0) with (gate_passes w) in Hg1.
  rewrite Hg1, Hg in Ex. cbn -[AppV1.generate_phase] in Ex.
  unfold AppV1.generate_phase, AppV1.generateLogoConcepts, bind, try_catch, setStep,
    setLoadingMsg, setConcepts, setErrorMsg, modify, with_st in Ex.
  cbn -[AppV1.concept_loop] in Ex.
  match type of Ex with context [AppV1.concept_loop ?b ?ss ?i ?a ?w2] =>
    assert (R : image_replies w2 = image_replies w) by (cbn; exact Hr1);
    assert (Hok2 : forall j, j < length ss -> image_ok (nth j (image_replies w2) (Throw None)) = true)
      by (rewrite R; exact Hok);
    destruct (AppV1_loop_succeeds b ss i a w2 Hok2) as (l & w' & Hl & Hids & Hc & Hn);
    rewrite Hl in Ex
  end.
  cbn in Ex. subst x. cbn.
  unfold core in Hc, Hc1. cbn in Hc, Hc1.
  injection Hc as _ He _ _ _ _. injection Hc1 as _ He1 _ _ _ _.
  split; [reflexivity|split; [congruence|split; [exact Hids|]]].
  fold (count_generate (log w')). rewrite Hn. cbn [log]. rewrite Hl1, count_generate_app. cbn. lia.
Qed.

Lemma X_AppV1_handleGenerate_success_witness :
  step (st (snd (AppV1.handleGenerate
    (demo_world (demo_state WIZARD []) None
       [Ok (png_response "AAA"); Ok (png_response "BBB"); Ok (png_response "CCC")] [])))) = GALLERY /\
  errorMsg (st (snd (AppV1.handleGenerate
    (demo_world (demo_state WIZARD []) None
       [Ok (png_response "AAA"); Ok (png_response "BBB"); Ok (png_response "CCC")] [])))) = None /\
  map id (concepts (st (snd (AppV1.handleGenerate
    (demo_world (demo_state WIZARD []) None
       [Ok (png_response "AAA"); Ok (png_response "BBB"); Ok (png_response "CCC")] []))))) =
    ["concept-0"; "concept-1"; "concept-2"] /\
  count_generate (log (snd (AppV1.handleGenerate
    (demo_world (demo_state WIZARD []) None
       [Ok (png_response "AAA"); Ok (png_response "BBB"); Ok (png_response "CCC")] [])))) =
    0 + 0 + 3.
Proof.
  exact (X_AppV1_handleGenerate_success
    (demo_world (demo_state WIZARD []) None
       [Ok (png_response "AAA"); Ok (png_response "BBB"); Ok (png_response "CCC")] [])
    eq_refl
    ltac:(intros j Hj; destruct j as [|[|[|j]]]; [reflexivity|reflexivity|reflexivity|lia])).
Defined.

(** In the earlier variant, a rejection with [429] in its message (and no
    not-found error) as the first refused reply, past the gate, ends in the
    wizard with the rate-limit text; unlike a not-found error it does not
    open the key selector: after the gate, the handler sends only its
    [k+1] requests. *)
Theorem X_AppV1_rate_limit w k m :
  gate_passes w = true ->
  k < 3 ->
  (forall j, j < k -> image_ok (nth j (image_replies w) (Throw None)) = true) ->
  nth k (image_replies w) (Throw None) = Throw (Some m) ->
  includes m "404" = false -> includes m "not found" = false -> includes m "429" = true ->
  step (st (snd (AppV1.handleGenerate w))) = WIZARD /\
  errorMsg (st (snd (AppV1.handleGenerate w))) =
    Some "Rate limit reached. Please wait a moment and try again." /\
  exists rest,
    log (snd (AppV1.handleGenerate w)) = (log w ++ gate_events w ++ rest)%list /\
    forallb is_generate rest = true /\ count_generate rest = S k.
Proof.
  intros Hg Hk Hok Hm H404 Hnf H429.
  remember (snd (AppV1.handleGenerate w)) as x eqn:Ex.
  rewrite AppV1_handleGenerate_unfold in Ex. unfold bind at 1 in Ex. cbv beta in Ex.
  set (w0 := snd (setErrorMsg None w)) in Ex.
  destruct (App_key_gate w0) as (w1 & Hg1 & Hr1 & Hl1 & _).
  change (gate_events w0) with (gate_events w) in Hl1;
  change (log w0) with (log w) in Hl1;
  change (gate_passes w0) with (gate_passes w) in Hg1.
  rewrite Hg1, Hg in Ex. cbn -[AppV1.generate_phase] in Ex.
  unfold AppV1.generate_phase, AppV1.generateLogoConcepts, bind, try_catch, setStep,
    setLoadingMsg, setConcepts, setErrorMsg, modify, with_st in Ex.
  cbn -[AppV1.concept_loop] in Ex.
  assert (Ce : AppV1.concept_error (Some m) =
                 Some "Rate limit reached. Please wait a moment and try again.").
  { unfold AppV1.concept_error, msg_includes. rewrite H404, Hnf, H429. reflexivity. }
  match type of Ex with context [AppV1.concept_loop ?b ?ss ?i ?a ?w2] =>
    assert (R : image_replies w2 = image_replies w) by (cbn; exact Hr1);
    assert (Hok2 : forall j, j < k -> image_ok (nth j (image_replies w2) (Throw None)) = true)
      by (rewrite R; exact Hok);
    assert (Hm2 : nth k (image_replies w2) (Throw None) = Throw (Some m))
      by (rewrite R; exact Hm);
    destruct (AppV1_concept_loop_emits b ss i a w2) as (rest & L & F);
    destruct (AppV1_loop_throw_at b ss k i a w2 (Some m) ltac:(cbn; lia) Hok2 Hm2)
      as (w' & Hl & _ & _ & Hn);
    rewrite Hl in L; rewrite Hl, Ce in Ex
  end.
  cbn in Ex, L, Hn. subst x. cbn.
  split; [reflexivity|split; [reflexivity|]].
  exists rest. rewrite L, Hl1, <- app_assoc.
  split; [reflexivity|split; [exact F|]].
  fold (count_generate (log w1)) in Hn. rewrite L, count_generate_app in Hn. lia.
Qed.

Lemma X_AppV1_rate_limit_witness :
  step (st (snd (AppV1.handleGenerate
    (demo_world (demo_state WIZARD []) (Some (mkHost true (Throw None)))
       [Throw (Some "429 Resource exhausted")] [])))) = WIZARD /\
  errorMsg (st (snd (AppV1.handleGenerate
    (demo_world (demo_state WIZARD []) (Some (mkHost true (Throw None)))
       [Throw (Some "429 Resource exhausted")] [])))) =
    Some "Rate limit reached. Please wait a moment and try again." /\
  exists rest,
    log (snd (AppV1.handleGenerate
      (demo_world (demo_state WIZARD []) (Some (mkHost true (Throw None)))
         [Throw (Some "429 Resource exhausted")] []))) =
      ([] ++ [EvHasSelectedApiKey] ++ rest)%list /\
    forallb is_generate rest = true /\ count_generate rest = 1.
Proof.
  exact (X_AppV1_rate_limit
    (demo_world (demo_state WIZARD []) (Some (mkHost true (Throw None)))
       [Throw (Some "429 Resource exhausted")] [])
    0 "429 Resource exhausted" eq_refl ltac:(lia) ltac:(intros; lia) eq_refl
    eq_refl eq_refl eq_refl).
Defined.

(** Every image request of [App.generateLogoConcepts] and of
    [GeminiService.generateLogoConcepts] has a prompt that contains each
    field of the brief: name, industry, values, audience and style. *)
Theorem X_prompts_name_brief brand svc :
  emits (names_brief brand) (App.generateLogoConcepts brand) /\
  emits (names_brief brand) (GeminiService.generateLogoConcepts svc brand).
Proof.
  assert (HA : forall s k, names_brief brand
                 (EvGenerate "gemini-2.5-flash-image" k (App.logo_prompt brand s)) = true).
  { intros s k. unfold names_brief, App.logo_prompt;
      rewrite !andb_true_iff; repeat split; includes_tac. }
  assert (HG : forall s k, names_brief brand
                 (EvGenerate "gemini-2.5-flash-image" k (GeminiService.logo_prompt brand s)) = true).
  { intros s k. unfold names_brief, GeminiService.logo_prompt, quoted;
      rewrite !andb_true_iff; repeat split; includes_tac. }
  split.
  - unfold App.generateLogoConcepts.
    generalize 0 (@nil LogoConcept). induction App.styles as [|s ss IH]; intros i acc; cbn.
    + apply emits_ret.
    + apply emits_bind; [|intros c; apply IH].
      unfold App.concept_step.
      apply emits_bind; [apply emits_modify|intros _].
      apply emits_bind; [apply emits_reader|intros k].
      apply emits_try_catch; [|intros; apply emits_throw].
      apply emits_bind; [apply emits_generateImage; apply HA|intros resp].
      destruct (String.eqb _ _); [apply emits_throw|].
      apply emits_bind; [apply emits_Date_now|intros; apply emits_ret].
  - unfold GeminiService.generateLogoConcepts. apply emits_bind.
    + generalize 0. induction GeminiService.styles as [|s ss IH]; intros i; cbn.
      * apply emits_ret.
      * apply emits_bind; [apply emits_send_image; apply HG|].
        intros r. apply emits_bind; [apply IH|intros rs; apply emits_ret].
    + intros rs. destruct (GeminiService.all_settled brand rs); [apply emits_ret|apply emits_throw].
Qed.

Lemma App_key_gate_host w h :
  aistudio w = Some h ->
  exists h', aistudio (snd (App.key_gate w)) = Some h' /\ select_key h' = select_key h.
Proof.
  intros Ha.
  unfold App.key_gate, hasSelectedApiKey, App.handleOpenKeySelector, openSelectKey, setHasKey.
  world_simpl. repeat (rewrite Ha; cbn).
  destruct (has_selected h); cbn; [eauto|]. repeat (rewrite Ha; cbn).
  destruct (select_key h) eqn:E; cbn; eauto.
Qed.

(** In the earlier variant, a not-found error as the first refused reply,
    past the gate and with a host, makes [handleGenerate] open the key
    selector once more after its [k+1] requests; the rejection of that
    selection is not caught, so the handler itself rejects with it. *)
Theorem X_AppV1_not_found_reopens_selector w h k m :
  aistudio w = Some h ->
  gate_passes w = true ->
  k < 3 ->
  (forall j, j < k -> image_ok (nth j (image_replies w) (Throw None)) = true) ->
  nth k (image_replies w) (Throw None) = Throw (Some m) ->
  (includes m "404" || includes m "not found") = true ->
  exists rest,
    forallb is_generate rest = true /\ count_generate rest = S k /\
    log (snd (AppV1.handleGenerate w)) =
      (log w ++ gate_events w ++ rest ++ [EvOpenSelectKey])%list /\
    fst (AppV1.handleGenerate w) =
      match select_key h with Ok _ => Ok tt | Throw e => Throw e end.
Proof.
  intros Ha Hg Hk Hok Hm Hinc.
  remember (AppV1.handleGenerate w) as p eqn:Ep.
  rewrite AppV1_handleGenerate_unfold in Ep. unfold bind at 1 in Ep. cbv beta in Ep.
  set (w0 := snd (setErrorMsg None w)) in Ep.
  destruct (App_key_gate w0) as (w1 & Hg1 & Hr1 & Hl1 & _).
  destruct (App_key_gate_host w0 h Ha) as (h1 & Ha1 & Hs1).
  rewrite Hg1 in Ha1. cbn [snd] in Ha1.
  change (gate_events w0) with (gate_events w) in Hl1;
  change (log w0) with (log w) in Hl1;
  change (gate_passes w0) with (gate_passes w) in Hg1.
  rewrite Hg1, Hg in Ep. cbn -[AppV1.generate_phase] in Ep.
  unfold AppV1.generate_phase, AppV1.generateLogoConcepts, bind, try_catch, setStep,
    setLoadingMsg, setConcepts, setErrorMsg, modify, with_st in Ep.
  cbn -[AppV1.concept_loop] in Ep.
  assert (Ce : AppV1.concept_error (Some m) = Some "MODEL_NOT_FOUND").
  { unfold AppV1.concept_error, msg_includes. rewrite Hinc. reflexivity. }
  match type of Ep with context [AppV1.concept_loop ?b ?ss ?i ?a ?w2] =>
    assert (R : image_replies w2 = image_replies w) by (cbn; exact Hr1);
    assert (Hok2 : forall j, j < k -> image_ok (nth j (image_replies w2) (Throw None)) = true)
      by (rewrite R; exact Hok);
    assert (Hm2 : nth k (image_replies w2) (Throw None) = Throw (Some m))
      by (rewrite R; exact Hm);
    destruct (AppV1_concept_loop_emits b ss i a w2) as (rest & L & F);
    destruct (AppV1_loop_throw_at b ss k i a w2 (Some m) ltac:(cbn; lia) Hok2 Hm2)
      as (w' & Hl & _ & Ha' & Hn);
    rewrite Hl in L; rewrite Hl, Ce in Ep
  end.
  cbn in L, Hn, Ha', Ep. rewrite Ha1 in Ha'. rewrite Ha' in Ep.
  unfold openSelectKey, bind, emit in Ep. cbn in Ep.
  rewrite Hs1 in Ep.
  fold (count_generate (log w1)) in Hn. rewrite L, count_generate_app in Hn.
  exists rest.
  destruct (select_key h); cbn in Ep; subst p; cbn;
    (split; [exact F|split; [lia|split; [|reflexivity]]]);
    rewrite L, Hl1, <- !app_assoc; reflexivity.
Qed.

Lemma X_AppV1_not_found_reopens_selector_witness :
  exists rest,
    forallb is_generate rest = true /\ count_generate rest = 1 /\
    log (snd (AppV1.handleGenerate
      (demo_world (demo_state WIZARD []) (Some (mkHost true (Throw (Some "closed"))))
         [Throw (Some "404 model not found")] []))) =
      ([] ++ [EvHasSelectedApiKey] ++ rest ++ [EvOpenSelectKey])%list /\
    fst (AppV1.handleGenerate
      (demo_world (demo_state WIZARD []) (Some (mkHost true (Throw (Some "closed"))))
         [Throw (Some "404 model not found")] [])) = Throw (Some "closed").
Proof.
  exact (X_AppV1_not_found_reopens_selector
    (demo_world (demo_state WIZARD []) (Some (mkHost true (Throw (Some "closed"))))
       [Throw (Some "404 model not found")] [])
    (mkHost true (Throw (Some "closed"))) 0 "404 model not found"
    eq_refl eq_refl ltac:(lia) ltac:(intros; lia) eq_refl eq_refl).
Defined.

(** Finalizing a concept in [App] or in its earlier variant sends exactly
    one request, to the text model, with the [process.env.API_KEY] of the
    moment and the guide prompt for the brief and the concept; the only
    other effect it may have is its notice. *)
Theorem X_handleSelectLogo_one_request c w :
  (exists tail,
     log (snd (App.handleSelectLogo c w)) =
       (log w ++ EvGenerate "gemini-3-flash-preview" (env_API_KEY w)
                   (App.guide_prompt (brandInfo (st w)) c) :: tail)%list /\
     (tail = [] \/ tail = [EvAlert App.guide_notice])) /\
  (exists tail,
     log (snd (AppV1.handleSelectLogo c w)) =
       (log w ++ EvGenerate "gemini-3-flash-preview" (env_API_KEY w)
                   (AppV1.guide_prompt (brandInfo (st w)) c) :: tail)%list /\
     (tail = [] \/ tail = [EvAlert AppV1.guide_notice])).
Proof.
  split;
    [unfold App.handleSelectLogo|unfold AppV1.handleSelectLogo];
    unfold bind, try_catch, get_st, setSelectedConcept, setStep,
      setLoadingMsg, setStyleGuide, modify, with_st, read_API_KEY, generateText, emit, alert,
      JSON_parse_m, ret, throw;
    cbn -[JSON_parse opt_str_or App.guide_prompt AppV1.guide_prompt];
    destruct (text_replies w) as [|[t|m] rs]; cbn -[JSON_parse opt_str_or App.guide_prompt AppV1.guide_prompt];
    try destruct (JSON_parse (opt_str_or t "{}")); cbn -[App.guide_prompt AppV1.guide_prompt];
    eexists; (split; [rewrite <- ?app_assoc; reflexivity|auto]).
Qed.
